(** * FleetOps dashboard: the mission lifecycle engine of [src/server.ts]

    A shallow embedding of the in-memory simulation that drives the
    dashboard: the robot registry, mission creation, the stage advancement
    tick, cancellation and the statistics read model.

    Modelling conventions.
    - A [Date] is the integer number of milliseconds since the epoch ([Z]).
    - The two stores [robots] and [missions] are JavaScript objects used as
      dictionaries.  They are association lists in insertion order, which is
      the order [Object.values] and [Object.keys] enumerate string keys that
      are not array indices; every key this program writes has the shape
      [robot-<n>] or [mission-<t>-<i>].  A lookup [s[k]] is read as a
      lookup among the object's own keys.  This is what the program
      computes whenever [k] is a key of [s] or is none of the names every
      object inherits from [Object.prototype] ([inheritedNames]), hence on
      every well-formed state; what [updateRobot] returns for an inherited
      name is given by [updateRobotResult].
    - Every handler runs to completion on the single JavaScript thread.  The
      clock reads ([Date.now()], [new Date()]) made during one invocation are
      modelled as one instant [now], passed to the handler.
    - [timeInStage >= duration] compares seconds; with integer milliseconds
      it is [1000 * duration <= now - stageStartTime]. *)

From Stdlib Require Import String Ascii ZArith List Bool Lia DecimalString.
Import ListNotations.

Local Open Scope list_scope.

(** ** Types *)

Module RobotStatus.
Inductive t : Type := idle | assigned | en_route | delivering | completed.

Definition eqb (a b : t) : bool :=
  match a, b with
  | idle, idle | assigned, assigned | en_route, en_route
  | delivering, delivering | completed, completed => true
  | _, _ => false
  end.
End RobotStatus.

Module Stage.
Inductive t : Type := preparation | travel | delivery | completed | cancelled.

Definition eqb (a b : t) : bool :=
  match a, b with
  | preparation, preparation | travel, travel | delivery, delivery
  | completed, completed | cancelled, cancelled => true
  | _, _ => false
  end.
End Stage.

(** [interface Robot]; the field [id] is [robot_id] here. *)
Record Robot : Type := mkRobot {
  robot_id : string;
  status : RobotStatus.t;
  currentMissionId : option string;
  lastUpdated : Z
}.

(** [interface Mission]; the field [id] is [mission_id] here. *)
Record Mission : Type := mkMission {
  mission_id : string;
  assignedRobotId : option string;
  createdAt : Z;
  currentStage : Stage.t;
  stageStartTime : Z
}.

(** [Partial<Robot>]: every field may be absent. *)
Record PartialRobot : Type := mkPartial {
  upd_id : option string;
  upd_status : option RobotStatus.t;
  upd_currentMissionId : option (option string);
  upd_lastUpdated : option Z
}.

(** ** JavaScript objects used as dictionaries *)

Section Store.
Context {V : Type}.

Definition store : Type := list (string * V).

(** [s[k]]: [None] stands for [undefined]. *)
Fixpoint store_get (k : string) (s : store) : option V :=
  match s with
  | [] => None
  | (k', v) :: s' => if String.eqb k k' then Some v else store_get k s'
  end.

(** [s[k] = v]: an existing key keeps its place, a new key goes last. *)
Fixpoint store_set (k : string) (v : V) (s : store) : store :=
  match s with
  | [] => [(k, v)]
  | (k', v') :: s' =>
      if String.eqb k k' then (k, v) :: s' else (k', v') :: store_set k v s'
  end.

(** [Object.keys(s)] and [Object.values(s)]. *)
Definition store_keys (s : store) : list string := map fst s.
Definition store_values (s : store) : list V := map snd s.
End Store.

Arguments store V : clear implicits.

(** ** The simulation state and its monad *)

Record State : Type := mkState {
  robots : store Robot;
  missions : store Mission
}.

Definition Sim (A : Type) : Type := State -> A * State.

Definition ret {A} (a : A) : Sim A := fun st => (a, st).

Definition bind {A B} (c : Sim A) (k : A -> Sim B) : Sim B :=
  fun st => let (a, st') := c st in k a st'.

Declare Scope sim_scope.
Delimit Scope sim_scope with sim.
Notation "x <- c ;; k" := (bind c (fun x => k))
  (at level 61, c at next level, right associativity) : sim_scope.
Notation "c ;;; k" := (bind c (fun _ => k))
  (at level 61, right associativity) : sim_scope.
Local Open Scope sim_scope.

Definition exec {A} (c : Sim A) (st : State) : State := snd (c st).
Definition eval {A} (c : Sim A) (st : State) : A := fst (c st).

Definition getRobots : Sim (store Robot) := fun st => (robots st, st).
Definition getMissions : Sim (store Mission) := fun st => (missions st, st).

(** [robots = rs] *)
Definition putRobots (rs : store Robot) : Sim unit :=
  fun st => (tt, mkState rs (missions st)).

(** [robots[k] = r] *)
Definition setRobot (k : string) (r : Robot) : Sim unit :=
  fun st => (tt, mkState (store_set k r (robots st)) (missions st)).

(** [missions[k] = m]; also a field write through the reference
    [missions[k]], each mission object being stored under one key. *)
Definition setMission (k : string) (m : Mission) : Sim unit :=
  fun st => (tt, mkState (robots st) (store_set k m (missions st))).

(** [xs.forEach(f)] and counted [for] loops over a list of indices. *)
Fixpoint forEach {A} (xs : list A) (f : A -> Sim unit) : Sim unit :=
  match xs with
  | [] => ret tt
  | x :: xs' => f x ;;; forEach xs' f
  end.

(** ** Template literals *)

Definition string_of_nat (n : nat) : string :=
  NilZero.string_of_uint (Nat.to_uint n).

Definition string_of_Z (z : Z) : string :=
  NilZero.string_of_int (Z.to_int z).

(** [`robot-${i}`] *)
Definition robotIdOf (i : nat) : string :=
  String.append "robot-" (string_of_nat i).

(** [`mission-${Date.now()}-${i}`] *)
Definition missionIdOf (now : Z) (i : nat) : string :=
  String.append "mission-"
    (String.append (string_of_Z now) (String.append "-" (string_of_nat i))).

(** ** Mission stages with timing *)

Record StageInfo : Type := mkStageInfo {
  duration : Z;
  robotStatus : RobotStatus.t
}.

(** [missionStages[stage]]; the table has no entry for [cancelled]. *)
Definition missionStages (s : Stage.t) : option StageInfo :=
  match s with
  | Stage.preparation => Some (mkStageInfo 30 RobotStatus.assigned)
  | Stage.travel => Some (mkStageInfo 150 RobotStatus.en_route)
  | Stage.delivery => Some (mkStageInfo 60 RobotStatus.delivering)
  | Stage.completed => Some (mkStageInfo 5 RobotStatus.completed)
  | Stage.cancelled => None
  end.

(** The array [stages] local to [updateRobotStates]. *)
Definition stages : list Stage.t :=
  [Stage.preparation; Stage.travel; Stage.delivery; Stage.completed].

(** [xs.indexOf(x)], [-1] when absent. *)
Fixpoint indexOf_from (i : Z) (x : Stage.t) (xs : list Stage.t) : Z :=
  match xs with
  | [] => (-1)%Z
  | y :: xs' => if Stage.eqb x y then i else indexOf_from (i + 1)%Z x xs'
  end.

Definition indexOf (x : Stage.t) (xs : list Stage.t) : Z := indexOf_from 0%Z x xs.

(** [xs[i]], [None] for [undefined]. *)
Definition array_get {A} (xs : list A) (i : Z) : option A :=
  if (i <? 0)%Z then None else nth_error xs (Z.to_nat i).

(** JavaScript truthiness of a [string | null]: [null] and the empty string
    are falsy. *)
Definition truthy (o : option string) : bool :=
  match o with
  | Some s => negb (String.eqb s EmptyString)
  | None => false
  end.

(** ** Fleet registry *)

(** [initializeRobots]: the loop runs [i = 1 .. 100]. *)
Definition fleetSize : nat := 100.

Definition initializeRobots (now : Z) : Sim unit :=
  putRobots [] ;;;
  forEach (seq 1 fleetSize) (fun i =>
    let robotId := robotIdOf i in
    setRobot robotId (mkRobot robotId RobotStatus.idle None now)).

Definition getAllRobots : Sim (list Robot) :=
  rs <- getRobots ;; ret (store_values rs).

Definition getIdleRobots : Sim (list Robot) :=
  all <- getAllRobots ;;
  ret (filter (fun robot => RobotStatus.eqb (status robot) RobotStatus.idle) all).

(** [{ ...robot, ...updates, lastUpdated: new Date() }] *)
Definition mergeRobot (robot : Robot) (updates : PartialRobot) (now : Z) : Robot :=
  mkRobot
    (match upd_id updates with Some v => v | None => robot_id robot end)
    (match upd_status updates with Some v => v | None => status robot end)
    (match upd_currentMissionId updates with
     | Some v => v
     | None => currentMissionId robot
     end)
    now.

(** [updateRobot] on the registry's own keys.  It is the program's function
    for every [id] that is a key of the registry or is not an inherited
    name; for an inherited name that is not a key the program's lookup
    finds the inherited object and stores an object that is no [Robot],
    which this state cannot hold ([updateRobotResult] below gives the value
    returned in that case too). *)
Definition updateRobot (now : Z) (id : string) (updates : PartialRobot)
  : Sim (option Robot) :=
  rs <- getRobots ;;
  match store_get id rs with
  | None => ret None
  | Some robot =>
      let updatedRobot := mergeRobot robot updates now in
      setRobot id updatedRobot ;;;
      ret (Some updatedRobot)
  end.

(** The property names every object inherits from [Object.prototype]; the
    value found under each of them is a function or an object, hence
    truthy, with no enumerable property of its own. *)
Definition inheritedNames : list string :=
  ["constructor"; "__proto__"; "hasOwnProperty"; "isPrototypeOf";
   "propertyIsEnumerable"; "toLocaleString"; "toString"; "valueOf";
   "__defineGetter__"; "__defineSetter__"; "__lookupGetter__";
   "__lookupSetter__"]%string.

Definition inheritedName (id : string) : bool :=
  existsb (String.eqb id) inheritedNames.

(** What the expression [robots[id]] evaluates to: the value under the
    object's own key, else the inherited value, else [undefined]. *)
Inductive Looked (V : Type) : Type :=
| Own (v : V)
| Inherited
| Undefined.

Arguments Own {V} v.
Arguments Inherited {V}.
Arguments Undefined {V}.

Definition js_get {V} (id : string) (s : store V) : Looked V :=
  match store_get id s with
  | Some v => Own v
  | None => if inheritedName id then Inherited else Undefined
  end.

(** The value [updateRobot] returns: [null], the merged robot record, or,
    when the lookup found an inherited value, the object
    [{ ...updates, lastUpdated: new Date() }], which has the fields given in
    [updates] and no others besides [lastUpdated]. *)
Inductive UpdateResult : Type :=
| NotFound
| Merged (updatedRobot : Robot)
| Stray (fields : PartialRobot).

Definition updateRobotResult (now : Z) (id : string) (updates : PartialRobot)
  (rs : store Robot) : UpdateResult :=
  match js_get id rs with
  | Undefined => NotFound
  | Own robot => Merged (mergeRobot robot updates now)
  | Inherited =>
      Stray (mkPartial (upd_id updates) (upd_status updates)
               (upd_currentMissionId updates) (Some now))
  end.

(** ** Assignment scheduler *)

Definition createNewMissions (now : Z) : Sim unit :=
  idleRobots <- getIdleRobots ;;
  let missionsToCreate := Nat.min 2 (length idleRobots) in
  forEach (seq 0 missionsToCreate) (fun i =>
    let missionId := missionIdOf now i in
    match nth_error idleRobots i with
    | None => ret tt (* not reached: [i < idleRobots.length] *)
    | Some robot =>
        let mission :=
          mkMission missionId (Some (robot_id robot)) now Stage.preparation now in
        setMission missionId mission ;;;
        updateRobot now (robot_id robot)
          (mkPartial None (Some RobotStatus.assigned) (Some (Some missionId)) None) ;;;
        ret tt
    end).

(** ** Lifecycle engine *)

(** The callback of [getAllRobots().forEach] in [updateRobotStates]. *)
Definition advanceRobot (now : Z) (robot : Robot) : Sim unit :=
  if negb (truthy (currentMissionId robot)) then ret tt else
  match currentMissionId robot with
  | None => ret tt
  | Some missionId =>
      ms <- getMissions ;;
      match store_get missionId ms with
      | None => ret tt
      | Some mission =>
          if Stage.eqb (currentStage mission) Stage.cancelled then ret tt else
          let timeInStage := (now - stageStartTime mission)%Z in
          match missionStages (currentStage mission) with
          | None => ret tt (* not reached: only [cancelled] has no entry *)
          | Some currentStageInfo =>
              if (1000 * duration currentStageInfo <=? timeInStage)%Z then
                let currentIndex := indexOf (currentStage mission) stages in
                match array_get stages (currentIndex + 1)%Z with
                | Some nextStage =>
                    setMission missionId
                      (mkMission (mission_id mission) (assignedRobotId mission)
                         (createdAt mission) nextStage now) ;;;
                    match missionStages nextStage with
                    | None => ret tt (* not reached: [nextStage] is in [stages] *)
                    | Some info =>
                        updateRobot now (robot_id robot)
                          (mkPartial None (Some (robotStatus info)) None None) ;;;
                        ret tt
                    end
                | None =>
                    if Stage.eqb (currentStage mission) Stage.completed then
                      updateRobot now (robot_id robot)
                        (mkPartial None (Some RobotStatus.idle) (Some None) None) ;;;
                      ret tt
                    else ret tt
                end
              else ret tt
          end
      end
  end.

Definition updateRobotStates (now : Z) : Sim unit :=
  all <- getAllRobots ;;
  forEach all (advanceRobot now).

Definition cancelRobotMission (now : Z) (robotId : string) : Sim bool :=
  rs <- getRobots ;;
  match store_get robotId rs with
  | None => ret false
  | Some robot =>
      if negb (truthy (currentMissionId robot)) then ret false else
      match currentMissionId robot with
      | None => ret false
      | Some missionId =>
          ms <- getMissions ;;
          match store_get missionId ms with
          | Some mission =>
              setMission missionId
                (mkMission (mission_id mission) (assignedRobotId mission)
                   (createdAt mission) Stage.cancelled (stageStartTime mission))
          | None => ret tt
          end ;;;
          updateRobot now robotId
            (mkPartial None (Some RobotStatus.idle) (Some None) None) ;;;
          ret true
      end
  end.

(** ** Read model: [GET /api/stats] *)

Record Stats : Type := mkStats {
  totalRobots : nat;
  idleRobots : nat;
  totalMissions : nat;
  activeMissions : nat;
  completedMissions : nat;
  cancelledMissions : nat
}.

Definition statsHandler : Sim Stats :=
  ms <- getMissions ;;
  let missionArray := store_values ms in
  rs <- getRobots ;;
  idle <- getIdleRobots ;;
  ms' <- getMissions ;;
  ret (mkStats
         (length (store_keys rs))
         (length idle)
         (length (store_keys ms'))
         (length (filter (fun m =>
            negb (Stage.eqb (currentStage m) Stage.completed)
            && negb (Stage.eqb (currentStage m) Stage.cancelled)) missionArray))
         (length (filter (fun m => Stage.eqb (currentStage m) Stage.completed)
            missionArray))
         (length (filter (fun m => Stage.eqb (currentStage m) Stage.cancelled)
            missionArray))).

(** ** Server start-up: [initializeRobots(); createNewMissions()] *)

Definition startSimulation (now : Z) : Sim unit :=
  initializeRobots now ;;; createNewMissions now.

Definition emptyState : State := mkState [] [].

(** ** Runs of the simulation

    The server initialises the fleet once; afterwards the two timers and
    the cancel route invoke the handlers one at a time. *)

Inductive Event : Type :=
| Create (now : Z)
| Tick (now : Z)
| Cancel (now : Z) (robotId : string).

Definition handle (e : Event) : Sim unit :=
  match e with
  | Create now => createNewMissions now
  | Tick now => updateRobotStates now
  | Cancel now robotId => cancelRobotMission now robotId ;;; ret tt
  end.

Definition runEvents (evs : list Event) : Sim unit := forEach evs handle.

Definition initialFleet (t0 : Z) : State := exec (initializeRobots t0) emptyState.

(** The state after [n] advancement ticks at [t0 + T], [t0 + 2T], ... *)
Fixpoint ticks (T t0 : Z) (n : nat) (st : State) : State :=
  match n with
  | O => st
  | S n' => ticks T (t0 + T)%Z n' (exec (updateRobotStates (t0 + T)%Z) st)
  end.

(** The state after advancement ticks at the given instants. *)
Definition runTicks (times : list Z) : Sim unit := forEach times updateRobotStates.

(** ** Well-formed states

    [keyedb] is what a JavaScript object gives for free (one entry per key)
    together with the convention that a record is stored under its own
    [id].  [wf] adds the binding discipline between robots and missions. *)

Fixpoint nodupb (l : list string) : bool :=
  match l with
  | [] => true
  | x :: l' => negb (existsb (String.eqb x) l') && nodupb l'
  end.

Definition keyedb {V} (idof : V -> string) (s : store V) : bool :=
  nodupb (store_keys s)
  && forallb (fun kv => String.eqb (idof (snd kv)) (fst kv)) s.

Definition isSome {A} (o : option A) : bool :=
  match o with Some _ => true | None => false end.

Definition boundb (ms : store Mission) (r : Robot) : bool :=
  match currentMissionId r with
  | None => RobotStatus.eqb (status r) RobotStatus.idle
  | Some mid =>
      negb (RobotStatus.eqb (status r) RobotStatus.idle)
      && negb (String.eqb mid EmptyString)
      && isSome (store_get mid ms)
  end.

Definition registry_ok (st : State) : bool := keyedb robot_id (robots st).

Definition wf (st : State) : bool :=
  registry_ok st
  && keyedb mission_id (missions st)
  && forallb (boundb (missions st)) (store_values (robots st)).

Definition Keyed {V} (idof : V -> string) (s : store V) : Prop :=
  NoDup (store_keys s) /\ forall k v, In (k, v) s -> idof v = k.

Definition Bound (ms : store Mission) (r : Robot) : Prop :=
  match currentMissionId r with
  | None => status r = RobotStatus.idle
  | Some mid =>
      status r <> RobotStatus.idle /\ mid <> EmptyString /\ store_get mid ms <> None
  end.

Definition WF (st : State) : Prop :=
  Keyed robot_id (robots st)
  /\ Keyed mission_id (missions st)
  /\ forall r, In r (store_values (robots st)) -> Bound (missions st) r.

(** ** What one robot's callback does, as functions of the records it reads *)

(** The registry after [updateRobot now id updates]. *)
Definition applyUpdate (now : Z) (id : string) (updates : PartialRobot)
  (rs : store Robot) : store Robot :=
  match store_get id rs with
  | Some robot => store_set id (mergeRobot robot updates now) rs
  | None => rs
  end.

(** [stages[stages.indexOf(s) + 1]] *)
Definition nextStageOf (s : Stage.t) : option Stage.t :=
  array_get stages (indexOf s stages + 1)%Z.

(** [timeInStage >= currentStageInfo.duration] *)
Definition due (now : Z) (m : Mission) : bool :=
  match missionStages (currentStage m) with
  | Some info => (1000 * duration info <=? now - stageStartTime m)%Z
  | None => false
  end.

Definition enterStage (m : Mission) (s : Stage.t) (now : Z) : Mission :=
  mkMission (mission_id m) (assignedRobotId m) (createdAt m) s now.

Definition cancelMission (m : Mission) : Mission :=
  mkMission (mission_id m) (assignedRobotId m) (createdAt m) Stage.cancelled
    (stageStartTime m).

(** The mission record after the callback of a robot that holds it. *)
Definition advanceMission (now : Z) (m : Mission) : Mission :=
  if Stage.eqb (currentStage m) Stage.cancelled then m
  else if due now m then
    match nextStageOf (currentStage m) with
    | Some s' => enterStage m s' now
    | None => m
    end
  else m.

Definition statusUpdate (s : RobotStatus.t) : PartialRobot :=
  mkPartial None (Some s) None None.

Definition idleUpdate : PartialRobot :=
  mkPartial None (Some RobotStatus.idle) (Some None) None.

Definition assignUpdate (missionId : string) : PartialRobot :=
  mkPartial None (Some RobotStatus.assigned) (Some (Some missionId)) None.

(** The update the callback sends to the registry, if any. *)
Definition robotUpdateFor (now : Z) (m : Mission) : option PartialRobot :=
  if Stage.eqb (currentStage m) Stage.cancelled then None
  else if due now m then
    match nextStageOf (currentStage m) with
    | Some s' =>
        match missionStages s' with
        | Some info => Some (statusUpdate (robotStatus info))
        | None => None
        end
    | None =>
        if Stage.eqb (currentStage m) Stage.completed then Some idleUpdate else None
    end
  else None.

(** The mission a robot record leads to: its [currentMissionId] is truthy
    and names an entry of the mission store. *)
Definition heldMission (r : Robot) (ms : store Mission) : option (string * Mission) :=
  if truthy (currentMissionId r) then
    match currentMissionId r with
    | Some mid =>
        match store_get mid ms with
        | Some m => Some (mid, m)
        | None => None
        end
    | None => None
    end
  else None.

(** Does this robot record hold mission id [mid]? *)
Definition holds (mid : string) (r : Robot) : bool :=
  match currentMissionId r with
  | Some mid' => String.eqb mid' mid
  | None => false
  end.

(** The robots of the registry that hold [mid]. *)
Definition holders (mid : string) (st : State) : list Robot :=
  filter (holds mid) (store_values (robots st)).

(** The entries of [s] that [Object.values] enumerates before key [k]. *)
Fixpoint entriesBefore {V} (k : string) (s : store V) : store V :=
  match s with
  | [] => []
  | (k', v) :: s' =>
      if String.eqb k k' then [] else (k', v) :: entriesBefore k s'
  end.

(** The robots that hold [mid] and whose callback runs, in one advancement
    tick, before the callback of the robot under key [rid]. *)
Definition earlierHolders (mid rid : string) (st : State) : list Robot :=
  filter (holds mid) (store_values (entriesBefore rid (robots st))).

(** The record of a robot after its own callback, given the mission store
    the callback reads. *)
Definition ownUpdate (now : Z) (r : Robot) (ms : store Mission) : Robot :=
  match heldMission r ms with
  | Some (_, m) =>
      match robotUpdateFor now m with
      | Some u => mergeRobot r u now
      | None => r
      end
  | None => r
  end.

(** Is [mid] held, through a truthy [currentMissionId], by one of [rs]? *)
Definition heldBy (mid : string) (rs : list Robot) : bool :=
  existsb (fun r => truthy (currentMissionId r) && holds mid r) rs.

(** One iteration of the loop of [createNewMissions]. *)
Definition newMission (now : Z) (i : nat) (robot : Robot) : Mission :=
  mkMission (missionIdOf now i) (Some (robot_id robot)) now Stage.preparation now.

Definition assignStep (now : Z) (i : nat) (robot : Robot) (st : State) : State :=
  mkState
    (applyUpdate now (robot_id robot) (assignUpdate (missionIdOf now i)) (robots st))
    (store_set (missionIdOf now i) (newMission now i robot) (missions st)).

(** ** Observations *)

(** The mission records a robot references through [currentMissionId]. *)
Definition referencedMissions (st : State) (r : Robot) : list Mission :=
  match currentMissionId r with
  | Some mid =>
      filter (fun m => String.eqb (mission_id m) mid) (store_values (missions st))
  | None => []
  end.

Definition stageAt (mid : string) (st : State) : option Stage.t :=
  option_map currentStage (store_get mid (missions st)).

(** The stage of mission [mid] before the first tick and after each tick. *)
Fixpoint stageTrace (times : list Z) (mid : string) (st : State)
  : list (option Stage.t) :=
  match times with
  | [] => [stageAt mid st]
  | t :: times' =>
      stageAt mid st :: stageTrace times' mid (exec (updateRobotStates t) st)
  end.

Definition stage_opt_eqb (a b : option Stage.t) : bool :=
  match a, b with
  | Some x, Some y => Stage.eqb x y
  | None, None => true
  | _, _ => false
  end.

(** Runs of equal consecutive observations collapsed to one. *)
Fixpoint compress (l : list (option Stage.t)) : list (option Stage.t) :=
  match l with
  | [] => []
  | x :: l' =>
      match compress l' with
      | [] => [x]
      | y :: ys => if stage_opt_eqb x y then y :: ys else x :: y :: ys
      end
  end.

(** The part of the array [stages] that starts at [s]. *)
Definition stagesFrom (s : Stage.t) : list Stage.t :=
  skipn (Z.to_nat (indexOf s stages)) stages.

(** The last character of a string. *)
Fixpoint last_ascii (s : string) : option ascii :=
  match s with
  | EmptyString => None
  | String c s' =>
      match last_ascii s' with
      | Some d => Some d
      | None => Some c
      end
  end.

(** ** Runs in which every creation tick draws unused mission ids

    [createNewMissions] names its missions after the clock, so two calls at
    the same millisecond write the same keys.  A run is fresh when that
    never happens. *)

Definition freshIds (now : Z) (st : State) : bool :=
  forallb (fun i => negb (isSome (store_get (missionIdOf now i) (missions st))))
    (seq 0 2).

Fixpoint freshRun (evs : list Event) (st : State) : bool :=
  match evs with
  | [] => true
  | e :: evs' =>
      match e with
      | Create now => freshIds now st
      | _ => true
      end
      && freshRun evs' (exec (handle e) st)
  end.

(** No mission id is held by two entries of the registry. *)
Definition Unshared (rs : store Robot) : Prop :=
  forall k1 k2 r1 r2 mid,
    store_get k1 rs = Some r1 -> store_get k2 rs = Some r2 ->
    currentMissionId r1 = Some mid -> currentMissionId r2 = Some mid ->
    k1 = k2.

(** Every entry of [rs'] either holds nothing or holds what the entry of
    [rs] under the same key holds. *)
Definition Narrows (rs rs' : store Robot) : Prop :=
  forall k r', store_get k rs' = Some r' ->
    currentMissionId r' = None
    \/ exists r, store_get k rs = Some r /\ currentMissionId r = currentMissionId r'.

(** ** The statistics, following the words of the specification *)

Fixpoint count {A} (p : A -> bool) (l : list A) : nat :=
  match l with
  | [] => 0
  | x :: l' => (if p x then 1 else 0) + count p l'
  end.

Definition isIdle (r : Robot) : bool :=
  match status r with RobotStatus.idle => true | _ => false end.

Definition stageIn (m : Mission) (ss : list Stage.t) : bool :=
  existsb (Stage.eqb (currentStage m)) ss.

Definition stats_spec (st : State) : Stats :=
  mkStats
    (length (robots st))
    (count isIdle (store_values (robots st)))
    (length (missions st))
    (count (fun m => negb (stageIn m [Stage.completed; Stage.cancelled]))
       (store_values (missions st)))
    (count (fun m => stageIn m [Stage.completed]) (store_values (missions st)))
    (count (fun m => stageIn m [Stage.cancelled]) (store_values (missions st))).

(** ** Sample states *)

Definition startState : State := exec (startSimulation 1000) emptyState.

Definition sampleRun : list Event :=
  [Create 1000; Tick 31000; Cancel 32000 "robot-1"].

Definition sampleRobot1 : Robot :=
  mkRobot "robot-1" RobotStatus.assigned (Some "mission-1000-0"%string) 1000.

Definition sampleRobot2 : Robot :=
  mkRobot "robot-2" RobotStatus.en_route (Some "mission-1000-1"%string) 31000.

Definition sampleMission : Mission :=
  mkMission "mission-1000-0" (Some "robot-1"%string) 1000 Stage.preparation 1000.

(** A registry whose only robot names a mission that was never stored. *)
Definition danglingState : State :=
  mkState
    [("robot-1"%string,
      mkRobot "robot-1" RobotStatus.assigned (Some "mission-7-0"%string) 7)]
    [].


(** ** Further observations on runs *)

(** The instant an event's handler reads from the clock. *)
Definition eventTime (e : Event) : Z :=
  match e with
  | Create now => now
  | Tick now => now
  | Cancel now _ => now
  end.

Definition isCreate (e : Event) : bool :=
  match e with
  | Create _ => true
  | _ => false
  end.

(** Every entry of [rs'] is the entry of [rs] under the same key, or was
    written over it with [lastUpdated = now]. *)
Definition Stamped (now : Z) (rs rs' : store Robot) : Prop :=
  forall k r', store_get k rs' = Some r' ->
    store_get k rs = Some r' \/ (lastUpdated r' = now /\ store_get k rs <> None).

(** Seconds of nominal stage time from the start of stage [s] to the end of
    [completed], summed over the part of [stages] that starts at [s]. *)
Definition remainingSeconds (s : Stage.t) : Z :=
  fold_right
    (fun s' acc =>
       match missionStages s' with
       | Some info => (duration info + acc)%Z
       | None => acc
       end)
    0%Z (stagesFrom s).

(** The status of every robot that holds a mission is the stage table's
    status for that mission's stage. *)
Definition Mirrors (st : State) : Prop :=
  forall k r mid m,
    store_get k (robots st) = Some r ->
    currentMissionId r = Some mid ->
    store_get mid (missions st) = Some m ->
    exists info,
      missionStages (currentStage m) = Some info /\ status r = robotStatus info.

(** * The dashboard of [frontend/App.tsx]

    The component keeps five state variables and changes them in three
    asynchronous functions.  Each function is a transformer of the
    component state that takes the outcome of its HTTP exchanges as
    arguments: [Ok payload] when [fetch] resolved, [response.ok] held and the
    body parsed, [Failed] for every path into the [catch] block.
    [Date.prototype.toJSON] is the parameter [iso]. *)

Module Dashboard.

(** [interface Robot] of the front end: the JSON of a server robot. *)
Record RobotView : Type := mkView {
  v_id : string;
  v_status : string;
  v_currentMissionId : option string;
  v_lastUpdated : string
}.

Inductive Response (A : Type) : Type :=
| Ok (payload : A)
| Failed.

Arguments Ok {A} payload.
Arguments Failed {A}.

(** [useState] variables of [FleetDashboard]. *)
Record View : Type := mkDash {
  d_robots : list RobotView;
  d_stats : option Stats;
  d_loading : bool;
  d_error : option string;
  d_lastUpdate : Z
}.

(** The string a robot status is in JSON. *)
Definition statusName (s : RobotStatus.t) : string :=
  match s with
  | RobotStatus.idle => "idle"
  | RobotStatus.assigned => "assigned"
  | RobotStatus.en_route => "en_route"
  | RobotStatus.delivering => "delivering"
  | RobotStatus.completed => "completed"
  end.

(** [res.json(getAllRobots())] as the client parses it. *)
Definition toJSON (iso : Z -> string) (r : Robot) : RobotView :=
  mkView (robot_id r) (statusName (status r)) (currentMissionId r)
    (iso (lastUpdated r)).

Definition serverRows (iso : Z -> string) (st : State) : list RobotView :=
  map (toJSON iso) (eval getAllRobots st).

Definition fetchRobots (resp : Response (list RobotView)) (now : Z) (d : View) : View :=
  match resp with
  | Ok robotsData => mkDash robotsData (d_stats d) (d_loading d) None now
  | Failed =>
      mkDash (d_robots d) (d_stats d) (d_loading d)
        (Some "Failed to fetch robot data"%string) (d_lastUpdate d)
  end.

Definition fetchStats (resp : Response Stats) (d : View) : View :=
  match resp with
  | Ok statsData =>
      mkDash (d_robots d) (Some statsData) (d_loading d) (d_error d) (d_lastUpdate d)
  | Failed => d
  end.

(** [cancelRobotMission] of the component; [stats] is the value of the
    render the handler was created in, the state at the click. *)
Definition cancelRobotMission (robotId : string) (cancelled : Response bool)
  (refreshed : Response (list RobotView)) (counted : Response Stats) (now : Z)
  (d : View) : View :=
  match cancelled with
  | Ok _ =>
      let d1 := fetchRobots refreshed now d in
      if isSome (d_stats d) then fetchStats counted d1 else d1
  | Failed =>
      mkDash (d_robots d) (d_stats d) (d_loading d)
        (Some (String.append "Failed to cancel mission for " robotId))
        (d_lastUpdate d)
  end.

(** One round of the polling interval: [fetchRobots] then [fetchStats]. *)
Definition poll (robotsResp : Response (list RobotView)) (statsResp : Response Stats)
  (now : Z) (d : View) : View :=
  fetchStats statsResp (fetchRobots robotsResp now d).

(** [getStatusColor] *)
Definition getStatusColor (status : string) : string :=
  if String.eqb status "idle" then "status-idle"
  else if String.eqb status "assigned" then "status-assigned"
  else if String.eqb status "en_route" then "status-en-route"
  else if String.eqb status "delivering" then "status-delivering"
  else if String.eqb status "completed" then "status-completed"
  else "status-idle".

(** The row shows the Cancel button when [robot.currentMissionId] is truthy. *)
Definition offersCancel (v : RobotView) : bool := truthy (v_currentMissionId v).

End Dashboard.

(** A click on Cancel for [robotId] with every HTTP exchange succeeding.
    The three requests are separate turns of the server: it runs
    [cancelRobotMission] and answers [{ success }]; the handlers of
    [between] (timer callbacks, other requests) run before it serves
    [GET /api/robots], and those of [later] before it serves
    [GET /api/stats].  The result is the server state after the last
    request and the dashboard after the click handler. *)
Definition clickCancel (iso : Z -> string) (robotId : string) (serverNow clientNow : Z)
  (between later : list Event) (st : State) (d : Dashboard.View)
  : State * Dashboard.View :=
  let (success, st1) := cancelRobotMission serverNow robotId st in
  let st2 := exec (runEvents between) st1 in
  let st3 := exec (runEvents later) st2 in
  (st3,
   Dashboard.cancelRobotMission robotId (Dashboard.Ok success)
     (Dashboard.Ok (Dashboard.serverRows iso st2))
     (Dashboard.Ok (eval statsHandler st3)) clientNow d).

(** ** Further sample data *)

Definition quietRun : list Event := [Tick 31000; Cancel 32000 "robot-1"].

Definition sampleTimes : list Z := [31000; 181000; 241000; 246000]%Z.

Definition sampleRobot1Travelling : Robot :=
  mkRobot "robot-1" RobotStatus.en_route (Some "mission-1000-0"%string) 31000.

Definition sampleRobot1Released : Robot :=
  mkRobot "robot-1" RobotStatus.idle None 246000.

Definition sampleMissionTravelling : Mission :=
  mkMission "mission-1000-0" (Some "robot-1"%string) 1000 Stage.travel 31000.

Definition noDate (_ : Z) : string := EmptyString.

(** Two creation ticks within one millisecond: the second draws the mission
    ids of the first again. *)
Definition sharedState : State :=
  exec (runEvents [Create 1000; Create 1000]) (initialFleet 1000).

Definition sampleRobot3 : Robot :=
  mkRobot "robot-3" RobotStatus.assigned (Some "mission-1000-0"%string) 1000.

Definition sampleMissionRebound : Mission :=
  mkMission "mission-1000-0" (Some "robot-3"%string) 1000 Stage.preparation 1000.

(** * Properties *)

(** ** Equality tests *)

Lemma status_eqb_eq (a b : RobotStatus.t) : RobotStatus.eqb a b = true <-> a = b.
Proof. destruct a, b; cbn; split; congruence. Qed.

Lemma stage_eqb_neq (a b : Stage.t) : Stage.eqb a b = false <-> a <> b.
Proof. destruct a, b; cbn; split; congruence. Qed.

Lemma truthy_some (o : option string) :
  truthy o = true -> exists s, o = Some s /\ s <> EmptyString.
Proof.
  destruct o as [s|]; cbn; [|discriminate].
  intros H. exists s. split; [reflexivity|].
  intros ->. discriminate.
Qed.

(** ** Dictionaries *)

Section StoreFacts.
Context {V : Type}.
Implicit Types (s : store V) (k : string) (v : V).

Lemma store_get_set_same k v s : store_get k (store_set k v s) = Some v.
Proof.
  induction s as [|[k' v'] s IH]; cbn.
  - now rewrite String.eqb_refl.
  - destruct (String.eqb k k') eqn:E; cbn.
    + now rewrite String.eqb_refl.
    + now rewrite E.
Qed.

Lemma store_get_set_other k k' v s :
  k' <> k -> store_get k' (store_set k v s) = store_get k' s.
Proof.
  intros Hne. induction s as [|[k0 v0] s IH]; cbn.
  - apply String.eqb_neq in Hne. now rewrite Hne.
  - destruct (String.eqb k k0) eqn:E; cbn.
    + apply String.eqb_eq in E. subst k0.
      apply String.eqb_neq in Hne. now rewrite Hne.
    + now rewrite IH.
Qed.

Lemma store_set_same_value k v s : store_get k s = Some v -> store_set k v s = s.
Proof.
  induction s as [|[k' v'] s IH]; cbn; [discriminate|].
  destruct (String.eqb k k') eqn:E.
  - apply String.eqb_eq in E. intros [= ->]. now subst.
  - intros H. now rewrite IH.
Qed.

Lemma store_get_in k v s : store_get k s = Some v -> In (k, v) s.
Proof.
  induction s as [|[k' v'] s IH]; cbn; [discriminate|].
  destruct (String.eqb k k') eqn:E.
  - apply String.eqb_eq in E. intros [= ->]. left. now subst.
  - intros H. right. now apply IH.
Qed.

Lemma store_get_none k s : store_get k s = None <-> ~ In k (store_keys s).
Proof.
  induction s as [|[k' v'] s IH]; cbn.
  - tauto.
  - destruct (String.eqb k k') eqn:E.
    + apply String.eqb_eq in E. subst. split; [discriminate|tauto].
    + apply String.eqb_neq in E. rewrite IH. split.
      * intros H [H1|H1]; [congruence|tauto].
      * tauto.
Qed.

Lemma store_in_get k v s : NoDup (store_keys s) -> In (k, v) s -> store_get k s = Some v.
Proof.
  induction s as [|[k' v'] s IH]; cbn; [tauto|].
  intros Hnd [H|H].
  - injection H as -> ->. now rewrite String.eqb_refl.
  - inversion Hnd as [|? ? Hnotin Hnd']; subst.
    destruct (String.eqb k k') eqn:E.
    + apply String.eqb_eq in E. subst k'. exfalso. apply Hnotin.
      apply (in_map fst) in H. exact H.
    + now apply IH.
Qed.

(** Overwriting an existing key keeps the key order. *)
Lemma store_keys_set_present k v s :
  store_get k s <> None -> store_keys (store_set k v s) = store_keys s.
Proof.
  unfold store_keys.
  induction s as [|[k' v'] s IH]; cbn; [congruence|].
  destruct (String.eqb k k') eqn:E; cbn.
  - apply String.eqb_eq in E. now subst.
  - intros H. now rewrite IH.
Qed.

(** A new key is enumerated last. *)
Lemma store_keys_set_absent k v s :
  store_get k s = None -> store_keys (store_set k v s) = store_keys s ++ [k].
Proof.
  unfold store_keys.
  induction s as [|[k' v'] s IH]; cbn; [reflexivity|].
  destruct (String.eqb k k') eqn:E; cbn; [discriminate|].
  intros H. now rewrite IH.
Qed.

Lemma store_keys_set_nodup k v s :
  NoDup (store_keys s) -> NoDup (store_keys (store_set k v s)).
Proof.
  intros Hnd. destruct (store_get k s) eqn:E.
  - rewrite store_keys_set_present; [exact Hnd|congruence].
  - rewrite store_keys_set_absent by exact E.
    apply NoDup_app; [exact Hnd|repeat constructor; cbn; tauto|].
    intros x Hx [<-|[]]. apply store_get_none in E. exact (E Hx).
Qed.

Lemma store_set_in k v k0 v0 s :
  In (k0, v0) (store_set k v s) -> (k0 = k /\ v0 = v) \/ In (k0, v0) s.
Proof.
  induction s as [|[k' v'] s IH]; cbn.
  - intros [H|[]]. injection H as <- <-. now left.
  - destruct (String.eqb k k') eqn:E; cbn.
    + intros [H|H]; [injection H as <- <-; now left|tauto].
    + intros [H|H]; [tauto|]. destruct (IH H); tauto.
Qed.

End StoreFacts.

Lemma nodupb_spec (l : list string) : nodupb l = true <-> NoDup l.
Proof.
  induction l as [|x l IH]; cbn.
  - split; [constructor|reflexivity].
  - rewrite andb_true_iff, negb_true_iff, IH. split.
    + intros [Hx Hl]. constructor; [|exact Hl].
      intros Hin. assert (existsb (String.eqb x) l = true) as E; [|congruence].
      apply existsb_exists. exists x. split; [exact Hin|apply String.eqb_refl].
    + intros H. inversion H as [|? ? Hx Hl]; subst. split; [|exact Hl].
      destruct (existsb (String.eqb x) l) eqn:E; [|reflexivity].
      apply existsb_exists in E. destruct E as [y [Hy E]].
      apply String.eqb_eq in E. subst y. contradiction.
Qed.

Lemma keyedb_spec {V} (idof : V -> string) (s : store V) :
  keyedb idof s = true <-> Keyed idof s.
Proof.
  unfold keyedb, Keyed. rewrite andb_true_iff, nodupb_spec, forallb_forall.
  split; intros [Hnd H]; (split; [exact Hnd|]).
  - intros k v Hin. apply String.eqb_eq. exact (H (k, v) Hin).
  - intros [k v] Hin. apply String.eqb_eq. cbn. now apply H.
Qed.

Lemma boundb_spec (ms : store Mission) (r : Robot) :
  boundb ms r = true <-> Bound ms r.
Proof.
  unfold boundb, Bound. destruct (currentMissionId r) as [mid|].
  - rewrite !andb_true_iff, !negb_true_iff.
    rewrite String.eqb_neq. rewrite <- not_true_iff_false, status_eqb_eq.
    destruct (store_get mid ms); cbn; intuition congruence.
  - apply status_eqb_eq.
Qed.

Lemma wf_spec (st : State) : wf st = true <-> WF st.
Proof.
  unfold wf, WF, registry_ok. rewrite !andb_true_iff, !keyedb_spec, forallb_forall.
  split.
  - intros [[H1 H2] H3]. split; [exact H1|split; [exact H2|]].
    intros r Hr. apply boundb_spec. now apply H3.
  - intros [H1 [H2 H3]]. split; [split; assumption|].
    intros r Hr. apply boundb_spec. now apply H3.
Qed.

Lemma Keyed_get_id {V} (idof : V -> string) (s : store V) k v :
  Keyed idof s -> store_get k s = Some v -> idof v = k.
Proof. intros [_ H] Hg. apply H. now apply store_get_in. Qed.

Lemma Keyed_value_get {V} (idof : V -> string) (s : store V) v :
  Keyed idof s -> In v (store_values s) -> store_get (idof v) s = Some v.
Proof.
  intros HK Hin. apply in_map_iff in Hin. destruct Hin as [[k v'] [E Hin]].
  cbn in E. subst v'. destruct HK as [Hnd Hid].
  rewrite (Hid k v Hin). now apply store_in_get.
Qed.

Lemma Keyed_set {V} (idof : V -> string) (s : store V) k v :
  Keyed idof s -> idof v = k -> Keyed idof (store_set k v s).
Proof.
  intros [Hnd Hid] Hv. split.
  - now apply store_keys_set_nodup.
  - intros k0 v0 Hin. apply store_set_in in Hin.
    destruct Hin as [[-> ->]|Hin]; [exact Hv|now apply Hid].
Qed.

Lemma store_get_value {V} (s : store V) k v :
  store_get k s = Some v -> In v (store_values s).
Proof.
  intros H. apply store_get_in in H. apply (in_map snd) in H. exact H.
Qed.

Lemma store_set_value {V} (s : store V) k v v0 :
  In v0 (store_values (store_set k v s)) -> v0 = v \/ In v0 (store_values s).
Proof.
  intros H. apply in_map_iff in H. destruct H as [[k1 v1] [E H]]. cbn in E. subst v1.
  apply store_set_in in H. destruct H as [[_ ->]|H]; [now left|right].
  apply (in_map snd) in H. exact H.
Qed.

(** ** The state monad *)

Lemma exec_bind {A B} (c : Sim A) (k : A -> Sim B) st :
  exec (bind c k) st = exec (k (eval c st)) (exec c st).
Proof. unfold exec, eval, bind. now destruct (c st). Qed.

Lemma exec_forEach_cons {A} (x : A) xs f st :
  exec (forEach (x :: xs) f) st = exec (forEach xs f) (exec (f x) st).
Proof. cbn [forEach]. now rewrite exec_bind. Qed.

Lemma exec_forEach_app {A} (xs ys : list A) f st :
  exec (forEach (xs ++ ys) f) st = exec (forEach ys f) (exec (forEach xs f) st).
Proof.
  revert st. induction xs as [|x xs IH]; intros st; [reflexivity|].
  cbn [app]. now rewrite !exec_forEach_cons, IH.
Qed.

Lemma state_eta (st : State) : mkState (robots st) (missions st) = st.
Proof. now destruct st. Qed.

(** ** Registry update *)

Lemma updateRobot_exec now id updates st :
  exec (updateRobot now id updates) st
  = mkState (applyUpdate now id updates (robots st)) (missions st).
Proof.
  unfold updateRobot, applyUpdate, exec, bind, getRobots, setRobot, ret. cbn.
  destruct (store_get id (robots st)); cbn; [reflexivity|now rewrite state_eta].
Qed.

Lemma updateRobot_eval now id updates st :
  eval (updateRobot now id updates) st
  = option_map (fun robot => mergeRobot robot updates now) (store_get id (robots st)).
Proof.
  unfold updateRobot, eval, bind, getRobots, setRobot, ret. cbn.
  now destruct (store_get id (robots st)).
Qed.

Lemma applyUpdate_get_other now id updates rs k :
  k <> id -> store_get k (applyUpdate now id updates rs) = store_get k rs.
Proof.
  intros Hne. unfold applyUpdate. destruct (store_get id rs); [|reflexivity].
  now apply store_get_set_other.
Qed.

Lemma applyUpdate_keys now id updates rs :
  store_keys (applyUpdate now id updates rs) = store_keys rs.
Proof.
  unfold applyUpdate. destruct (store_get id rs) eqn:E; [|reflexivity].
  apply store_keys_set_present. congruence.
Qed.



(** ** Cancellation *)

Lemma cancelRobotMission_unknown now robotId st :
  store_get robotId (robots st) = None ->
  cancelRobotMission now robotId st = (false, st).
Proof.
  intros H. unfold cancelRobotMission, bind, getRobots, ret. cbn. now rewrite H.
Qed.

Lemma cancelRobotMission_falsy now robotId robot st :
  store_get robotId (robots st) = Some robot ->
  truthy (currentMissionId robot) = false ->
  cancelRobotMission now robotId st = (false, st).
Proof.
  intros H Ht. unfold cancelRobotMission, bind, getRobots, ret. cbn.
  now rewrite H, Ht.
Qed.

Lemma cancelRobotMission_held now robotId robot mid st :
  store_get robotId (robots st) = Some robot ->
  currentMissionId robot = Some mid ->
  mid <> EmptyString ->
  cancelRobotMission now robotId st
  = (true,
     mkState
       (store_set robotId (mergeRobot robot idleUpdate now) (robots st))
       (match store_get mid (missions st) with
        | Some m => store_set mid (cancelMission m) (missions st)
        | None => missions st
        end)).
Proof.
  intros H Hc Hne. apply String.eqb_neq in Hne.
  unfold cancelRobotMission, bind, getRobots, getMissions, ret. cbn.
  rewrite H. unfold truthy. rewrite Hc, Hne. cbn.
  destruct (store_get mid (missions st)) eqn:Em; cbn;
    unfold updateRobot, bind, getRobots, setRobot, setMission, ret; cbn;
    now rewrite H.
Qed.

(** C10.  A robot whose non-empty [currentMissionId] names no entry of the
    mission store is still cancelled: the call returns [true], the robot
    becomes idle with a null mission id, and the mission store is left as it
    was.  When the id names a mission, that record, and no other, gets
    [currentStage = cancelled]; no key is added in either case. *)
Theorem cancelRobotMission_dangling (now : Z) (robotId mid : string) (robot : Robot)
  (st : State) :
  store_get robotId (robots st) = Some robot ->
  currentMissionId robot = Some mid ->
  mid <> EmptyString ->
  let st' := exec (cancelRobotMission now robotId) st in
  eval (cancelRobotMission now robotId) st = true
  /\ (exists robot',
        store_get robotId (robots st') = Some robot'
        /\ status robot' = RobotStatus.idle
        /\ currentMissionId robot' = None)
  /\ (store_get mid (missions st) = None -> missions st' = missions st)
  /\ (forall m, store_get mid (missions st) = Some m ->
        store_get mid (missions st')
        = Some (mkMission (mission_id m) (assignedRobotId m) (createdAt m)
                  Stage.cancelled (stageStartTime m)))
  /\ (forall k, k <> mid -> store_get k (missions st') = store_get k (missions st))
  /\ store_keys (missions st') = store_keys (missions st).
Proof.
  intros Hget Hc Hne. cbn zeta. unfold exec, eval.
  rewrite (cancelRobotMission_held now robotId robot mid st Hget Hc Hne).
  cbn [fst snd robots missions]. split; [reflexivity|]. split.
  - exists (mergeRobot robot idleUpdate now). rewrite store_get_set_same.
    repeat split.
  - destruct (store_get mid (missions st)) as [m|] eqn:Em.
    + repeat split.
      * discriminate.
      * intros m0 [= <-]. apply store_get_set_same.
      * intros k Hk. now apply store_get_set_other.
      * apply store_keys_set_present. congruence.
    + repeat split. intros m0 H. discriminate.
Qed.

Lemma WF_get_bound st k r :
  WF st -> store_get k (robots st) = Some r -> Bound (missions st) r.
Proof.
  intros [_ [_ HB]] Hget. apply HB. now apply store_get_value in Hget.
Qed.

(** C4.  In a well-formed state [cancelRobotMission] returns [false] exactly
    when the robot id is unknown or the robot's [currentMissionId] is null,
    and then the state is unchanged.  When it returns [true] the robot's
    mission has [currentStage = cancelled] (its [stageStartTime] kept) and
    the robot is idle with a null mission id.  A second cancel of the same
    robot returns [false] and changes nothing. *)
Theorem cancelRobotMission_contract (now : Z) (robotId : string) (st : State) :
  wf st = true ->
  let ok := eval (cancelRobotMission now robotId) st in
  let st' := exec (cancelRobotMission now robotId) st in
  (ok = false <->
     store_get robotId (robots st) = None
     \/ exists robot,
          store_get robotId (robots st) = Some robot /\ currentMissionId robot = None)
  /\ (ok = false -> st' = st)
  /\ (ok = true ->
        exists robot mid m,
          store_get robotId (robots st) = Some robot
          /\ currentMissionId robot = Some mid
          /\ store_get mid (missions st) = Some m
          /\ (exists m',
                store_get mid (missions st') = Some m'
                /\ currentStage m' = Stage.cancelled
                /\ stageStartTime m' = stageStartTime m)
          /\ (exists robot',
                store_get robotId (robots st') = Some robot'
                /\ status robot' = RobotStatus.idle
                /\ currentMissionId robot' = None)
          /\ forall now',
               eval (cancelRobotMission now' robotId) st' = false
               /\ exec (cancelRobotMission now' robotId) st' = st').
Proof.
  intros Hwf. apply wf_spec in Hwf. cbn zeta. unfold exec, eval.
  destruct (store_get robotId (robots st)) as [robot|] eqn:Hget.
  - pose proof (WF_get_bound st robotId robot Hwf Hget) as HB.
    destruct (currentMissionId robot) as [mid|] eqn:Hc.
    + unfold Bound in HB. rewrite Hc in HB. destruct HB as [_ [Hne Hm]].
      rewrite (cancelRobotMission_held now robotId robot mid st Hget Hc Hne).
      cbn [fst snd robots missions].
      destruct (store_get mid (missions st)) as [m|] eqn:Em; [|congruence].
      repeat split.
      * discriminate.
      * intros [H|[robot0 [H1 H2]]]; congruence.
      * discriminate.
      * intros _. exists robot, mid, m.
        split; [reflexivity|]. split; [exact Hc|]. split; [exact Em|].
        split; [exists (cancelMission m); rewrite store_get_set_same;
                repeat split|].
        split; [exists (mergeRobot robot idleUpdate now);
                rewrite store_get_set_same; repeat split|].
        intros now'.
        rewrite (cancelRobotMission_falsy now' robotId
                   (mergeRobot robot idleUpdate now));
          [split; reflexivity|apply store_get_set_same|reflexivity].
    + rewrite (cancelRobotMission_falsy now robotId robot st Hget);
        [|now rewrite Hc].
      cbn [fst snd]. repeat split; try discriminate.
      intros _. right. now exists robot.
  - rewrite (cancelRobotMission_unknown now robotId st Hget). cbn [fst snd].
    repeat split; try discriminate.
    intros _. now left.
Qed.

(** ** Statistics *)

Lemma length_filter_count {A} (p q : A -> bool) (l : list A) :
  (forall x, p x = q x) -> length (filter p l) = count q l.
Proof.
  intros H. induction l as [|x l IH]; cbn; [reflexivity|].
  rewrite H. destruct (q x); cbn; now rewrite IH.
Qed.

(** C8.  The statistics handler leaves both stores as they are, and the
    object it returns is the one the specification describes: the numbers of
    robots, idle robots, missions, missions neither completed nor cancelled,
    completed missions and cancelled missions. *)
Theorem statsHandler_pure (st : State) :
  exec statsHandler st = st /\ eval statsHandler st = stats_spec st.
Proof.
  split; [reflexivity|].
  unfold statsHandler, stats_spec, eval, bind, getMissions, getRobots,
    getIdleRobots, getAllRobots, ret, store_keys, store_values.
  cbn. rewrite !length_map. f_equal.
  - apply length_filter_count. intros r. unfold isIdle.
    now destruct (status r).
  - apply length_filter_count. intros m. unfold stageIn.
    now destruct (currentStage m).
  - apply length_filter_count. intros m. unfold stageIn.
    now destruct (currentStage m).
  - apply length_filter_count. intros m. unfold stageIn.
    now destruct (currentStage m).
Qed.

(** ** One robot's callback in [updateRobotStates] *)

(** Case analysis on the test [timeInStage >= duration]. *)
Ltac case_elapsed :=
  match goal with
  | |- context [(?a <=? ?b)%Z] => destruct (a <=? b)%Z eqn:Helapsed
  end.

Lemma heldMission_some r ms mid m :
  heldMission r ms = Some (mid, m) <->
  currentMissionId r = Some mid /\ mid <> EmptyString /\ store_get mid ms = Some m.
Proof.
  unfold heldMission, truthy. destruct (currentMissionId r) as [mid'|].
  - destruct (String.eqb mid' EmptyString) eqn:E; cbn.
    + apply String.eqb_eq in E. subst. split; [discriminate|].
      intros [[= <-] [H _]]. congruence.
    + apply String.eqb_neq in E. destruct (store_get mid' ms) as [m'|] eqn:Em.
      * split.
        -- intros [= <- <-]. auto.
        -- intros [[= <-] [_ H]]. congruence.
      * split; [discriminate|]. intros [[= <-] [_ H]]. congruence.
  - cbn. split; [discriminate|]. intros [H _]. discriminate.
Qed.

Lemma array_next (s : Stage.t) :
  array_get stages (indexOf s stages + 1)%Z
  = match s with
    | Stage.preparation => Some Stage.travel
    | Stage.travel => Some Stage.delivery
    | Stage.delivery => Some Stage.completed
    | Stage.completed => None
    | Stage.cancelled => Some Stage.preparation
    end.
Proof. now destruct s. Qed.

Lemma advanceRobot_exec now r st :
  exec (advanceRobot now r) st
  = match heldMission r (missions st) with
    | None => st
    | Some (mid, m) =>
        mkState
          (match robotUpdateFor now m with
           | Some u => applyUpdate now (robot_id r) u (robots st)
           | None => robots st
           end)
          (store_set mid (advanceMission now m) (missions st))
    end.
Proof.
  unfold advanceRobot, heldMission.
  destruct (truthy (currentMissionId r)); cbn [negb]; [|reflexivity].
  destruct (currentMissionId r) as [mid|]; [|reflexivity].
  rewrite exec_bind. unfold getMissions at 1 2. unfold eval at 1, exec at 2. cbn [fst snd].
  destruct (store_get mid (missions st)) as [m|] eqn:Em; [|reflexivity].
  unfold advanceMission, robotUpdateFor, due, nextStageOf. cbv zeta.
  rewrite !array_next.
  assert (Hsame : mkState (robots st) (store_set mid m (missions st)) = st).
  { rewrite (store_set_same_value _ _ _ Em). apply state_eta. }
  destruct m as [mi ar ca cs ss]. cbn [currentStage stageStartTime mission_id
    assignedRobotId createdAt] in *.
  destruct cs; cbn [Stage.eqb missionStages duration robotStatus];
    try (symmetry; exact Hsame);
    case_elapsed; try (symmetry; exact Hsame);
    unfold enterStage; cbn [missionStages robotStatus mission_id
      assignedRobotId createdAt];
    rewrite ?exec_bind, ?updateRobot_exec; cbn; try reflexivity.
  now rewrite (store_set_same_value _ _ _ Em).
Qed.

Lemma advanceMission_idem now m :
  advanceMission now (advanceMission now m) = advanceMission now m.
Proof.
  unfold advanceMission, due, nextStageOf, enterStage. rewrite array_next.
  destruct m as [mi ar ca cs ss]. cbn [currentStage stageStartTime].
  destruct cs; cbn [Stage.eqb missionStages duration]; try reflexivity;
    case_elapsed; cbn [currentStage stageStartTime Stage.eqb missionStages duration];
    rewrite ?array_next, ?Helapsed; try reflexivity;
    rewrite Z.sub_diag; reflexivity.
Qed.

Lemma advanceMission_id now m : mission_id (advanceMission now m) = mission_id m.
Proof.
  unfold advanceMission. destruct (Stage.eqb _ _); [reflexivity|].
  destruct (due now m); [|reflexivity].
  now destruct (nextStageOf (currentStage m)).
Qed.

Lemma advanceMission_cancelled now m :
  currentStage m = Stage.cancelled -> advanceMission now m = m.
Proof. unfold advanceMission. now intros ->. Qed.

Lemma advanceMission_not_due now m : due now m = false -> advanceMission now m = m.
Proof.
  unfold advanceMission. intros ->. now destruct (Stage.eqb _ _).
Qed.

(** The updates the callback sends never touch [id]; they either idle the
    robot or give it a non-idle status and keep its mission id. *)
Lemma robotUpdateFor_shape now m u :
  robotUpdateFor now m = Some u ->
  u = idleUpdate \/ exists s, s <> RobotStatus.idle /\ u = statusUpdate s.
Proof.
  unfold robotUpdateFor, nextStageOf, due. rewrite array_next.
  destruct (currentStage m); cbn;
    try discriminate;
    case_elapsed; try discriminate; intros [= <-];
    try (now left); right; eexists; (split; [|reflexivity]); discriminate.
Qed.

Lemma forEach_missions_get now rs st mid :
  store_get mid (missions (exec (forEach rs (advanceRobot now)) st))
  = option_map (fun m => if heldBy mid rs then advanceMission now m else m)
      (store_get mid (missions st)).
Proof.
  revert st. induction rs as [|r rs IH]; intros st.
  - cbn. now destruct (store_get mid (missions st)).
  - rewrite exec_forEach_cons, IH, advanceRobot_exec. clear IH.
    unfold heldBy. cbn [existsb]. fold (heldBy mid rs).
    destruct (heldMission r (missions st)) as [[mid' m']|] eqn:Eh.
    + apply heldMission_some in Eh. destruct Eh as [Hc [Hne Hm]].
      cbn [missions]. unfold holds, truthy. rewrite Hc.
      apply String.eqb_neq in Hne. rewrite Hne. cbn [negb andb].
      destruct (String.eqb mid' mid) eqn:E.
      * apply String.eqb_eq in E. subst mid'.
        rewrite store_get_set_same, Hm. cbn [option_map orb].
        destruct (heldBy mid rs); [|reflexivity].
        now rewrite advanceMission_idem.
      * apply String.eqb_neq in E. rewrite store_get_set_other by congruence.
        reflexivity.
    + destruct (truthy (currentMissionId r) && holds mid r) eqn:Et; [|reflexivity].
      apply andb_true_iff in Et. destruct Et as [Ht Hh].
      unfold holds in Hh. destruct (currentMissionId r) as [mid'|] eqn:Hc;
        [|discriminate].
      apply String.eqb_eq in Hh. subst mid'.
      unfold heldMission in Eh. rewrite Hc, Ht in Eh.
      destruct (store_get mid (missions st)); [discriminate|reflexivity].
Qed.

Lemma advanceRobot_robots_other now r st k :
  k <> robot_id r ->
  store_get k (robots (exec (advanceRobot now r) st)) = store_get k (robots st).
Proof.
  intros Hne. rewrite advanceRobot_exec.
  destruct (heldMission r (missions st)) as [[mid m]|]; [|reflexivity].
  cbn [robots]. destruct (robotUpdateFor now m); [|reflexivity].
  now apply applyUpdate_get_other.
Qed.

Lemma forEach_robots_other now rs st k :
  ~ In k (map robot_id rs) ->
  store_get k (robots (exec (forEach rs (advanceRobot now)) st))
  = store_get k (robots st).
Proof.
  revert st. induction rs as [|r rs IH]; intros st Hnot; [reflexivity|].
  rewrite exec_forEach_cons, IH.
  - apply advanceRobot_robots_other. intros ->. apply Hnot. now left.
  - intros H. apply Hnot. now right.
Qed.

Lemma advanceRobot_robots_own now r st :
  store_get (robot_id r) (robots st) = Some r ->
  store_get (robot_id r) (robots (exec (advanceRobot now r) st))
  = Some (ownUpdate now r (missions st)).
Proof.
  intros Hget. rewrite advanceRobot_exec. unfold ownUpdate.
  destruct (heldMission r (missions st)) as [[mid m]|]; [|exact Hget].
  cbn [robots]. destruct (robotUpdateFor now m) as [u|]; [|exact Hget].
  unfold applyUpdate. rewrite Hget. apply store_get_set_same.
Qed.

(** ** Well-formedness is preserved *)

Lemma Keyed_ids {V} (idof : V -> string) (s : store V) :
  Keyed idof s -> map idof (store_values s) = store_keys s.
Proof.
  intros [_ Hid]. unfold store_values, store_keys. rewrite map_map.
  apply map_ext_in. intros [k v] Hin. cbn. now apply Hid.
Qed.

Lemma store_set_keeps {V} (s : store V) k v k0 :
  store_get k0 s <> None -> store_get k0 (store_set k v s) <> None.
Proof.
  intros H. destruct (string_dec k0 k) as [->|Hne].
  - rewrite store_get_set_same. discriminate.
  - now rewrite store_get_set_other.
Qed.

Lemma Bound_mono ms ms' r :
  (forall k, store_get k ms <> None -> store_get k ms' <> None) ->
  Bound ms r -> Bound ms' r.
Proof.
  unfold Bound. intros Hm. destruct (currentMissionId r); [|tauto].
  intros [H1 [H2 H3]]. auto.
Qed.

Lemma applyUpdate_Keyed now id u rs :
  Keyed robot_id rs -> upd_id u = None -> Keyed robot_id (applyUpdate now id u rs).
Proof.
  intros HK Hu. unfold applyUpdate. destruct (store_get id rs) as [robot|] eqn:E;
    [|exact HK].
  apply Keyed_set; [exact HK|]. unfold mergeRobot. cbn. rewrite Hu.
  now apply (Keyed_get_id robot_id rs).
Qed.

Lemma applyUpdate_values now id u rs r' :
  In r' (store_values (applyUpdate now id u rs)) ->
  In r' (store_values rs)
  \/ exists robot, store_get id rs = Some robot /\ r' = mergeRobot robot u now.
Proof.
  unfold applyUpdate. destruct (store_get id rs) as [robot|] eqn:E; [|now left].
  intros H. apply store_set_value in H. destruct H as [->|H]; [right|now left].
  now exists robot.
Qed.

Lemma WF_missions st ms' :
  WF st -> Keyed mission_id ms' ->
  (forall k, store_get k (missions st) <> None -> store_get k ms' <> None) ->
  WF (mkState (robots st) ms').
Proof.
  intros [HR [HM HB]] HK Hmono. split; [exact HR|split; [exact HK|]].
  cbn [robots missions]. intros r Hr. apply (Bound_mono (missions st)); auto.
Qed.

Lemma WF_update st now id u ms' :
  WF st -> upd_id u = None -> Keyed mission_id ms' ->
  (forall k, store_get k (missions st) <> None -> store_get k ms' <> None) ->
  (forall robot, store_get id (robots st) = Some robot ->
     Bound ms' (mergeRobot robot u now)) ->
  WF (mkState (applyUpdate now id u (robots st)) ms').
Proof.
  intros [HR [HM HB]] Hu HK Hmono Hnew. split; [|split; [exact HK|]].
  - cbn [robots]. now apply applyUpdate_Keyed.
  - cbn [robots missions]. intros r Hr. apply applyUpdate_values in Hr.
    destruct Hr as [Hr|[robot [Hg ->]]].
    + apply (Bound_mono (missions st)); auto.
    + now apply Hnew.
Qed.

Lemma advanceRobot_WF now r st :
  WF st -> store_get (robot_id r) (robots st) = Some r ->
  WF (exec (advanceRobot now r) st).
Proof.
  intros Hwf Hget. rewrite advanceRobot_exec.
  destruct (heldMission r (missions st)) as [[mid m]|] eqn:Eh; [|exact Hwf].
  apply heldMission_some in Eh. destruct Eh as [Hc [Hne Hm]].
  assert (HK : Keyed mission_id (store_set mid (advanceMission now m) (missions st))).
  { apply Keyed_set; [apply Hwf|]. rewrite advanceMission_id.
    apply (Keyed_get_id mission_id (missions st)); [apply Hwf|exact Hm]. }
  assert (Hmono : forall k, store_get k (missions st) <> None ->
            store_get k (store_set mid (advanceMission now m) (missions st)) <> None)
    by (intros k; apply store_set_keeps).
  destruct (robotUpdateFor now m) as [u|] eqn:Eu.
  - apply robotUpdateFor_shape in Eu.
    destruct Eu as [->|[s [Hs ->]]]; (apply WF_update; auto);
      intros robot Hg; rewrite Hget in Hg; injection Hg as <-.
    + reflexivity.
    + unfold Bound. cbn. rewrite Hc. repeat split; auto.
      rewrite store_get_set_same. discriminate.
  - now apply WF_missions.
Qed.

Lemma forEach_advance_WF now rs st :
  WF st -> NoDup (map robot_id rs) ->
  (forall r, In r rs -> store_get (robot_id r) (robots st) = Some r) ->
  WF (exec (forEach rs (advanceRobot now)) st).
Proof.
  revert st. induction rs as [|r rs IH]; intros st Hwf Hnd Hsnap; [exact Hwf|].
  rewrite exec_forEach_cons. inversion Hnd as [|? ? Hnotin Hnd']; subst.
  apply IH; [|exact Hnd'|].
  - apply advanceRobot_WF; [exact Hwf|]. apply Hsnap. now left.
  - intros r' Hr'. rewrite advanceRobot_robots_other.
    + apply Hsnap. now right.
    + intros E. apply Hnotin. rewrite <- E. now apply in_map.
Qed.

Lemma snapshot_nodup st :
  Keyed robot_id (robots st) -> NoDup (map robot_id (store_values (robots st))).
Proof. intros HK. rewrite (Keyed_ids _ _ HK). apply HK. Qed.

Lemma updateRobotStates_exec now st :
  exec (updateRobotStates now) st
  = exec (forEach (store_values (robots st)) (advanceRobot now)) st.
Proof. reflexivity. Qed.

Lemma updateRobotStates_WF now st : WF st -> WF (exec (updateRobotStates now) st).
Proof.
  intros Hwf. rewrite updateRobotStates_exec.
  apply forEach_advance_WF; [exact Hwf|apply snapshot_nodup, Hwf|].
  intros r Hr. apply (Keyed_value_get robot_id); [apply Hwf|exact Hr].
Qed.

Lemma createNewMissions_exec now st :
  exec (createNewMissions now) st
  = match eval getIdleRobots st with
    | [] => st
    | [a] => assignStep now 0 a st
    | a :: b :: _ => assignStep now 1 b (assignStep now 0 a st)
    end.
Proof.
  unfold createNewMissions. rewrite exec_bind.
  change (exec getIdleRobots st) with st.
  destruct (eval getIdleRobots st) as [|a [|b l]]; cbn [length Nat.min seq forEach].
  - reflexivity.
  - cbn [nth_error].
    repeat first [rewrite exec_bind | rewrite updateRobot_exec]. reflexivity.
  - cbn [nth_error].
    repeat first [rewrite exec_bind | rewrite updateRobot_exec]. reflexivity.
Qed.

Lemma missionIdOf_nonempty now i : missionIdOf now i <> EmptyString.
Proof. unfold missionIdOf. cbn. discriminate. Qed.

Lemma assignStep_WF now i robot st : WF st -> WF (assignStep now i robot st).
Proof.
  intros Hwf. unfold assignStep. apply WF_update; auto.
  - apply Keyed_set; [apply Hwf|reflexivity].
  - intros k. apply store_set_keeps.
  - intros r0 _. unfold Bound. cbn. repeat split.
    + discriminate.
    + apply missionIdOf_nonempty.
    + rewrite store_get_set_same. discriminate.
Qed.

Lemma createNewMissions_WF now st : WF st -> WF (exec (createNewMissions now) st).
Proof.
  intros Hwf. rewrite createNewMissions_exec.
  destruct (eval getIdleRobots st) as [|a [|b l]]; auto using assignStep_WF.
Qed.

Lemma cancelRobotMission_WF now robotId st :
  WF st -> WF (exec (cancelRobotMission now robotId) st).
Proof.
  intros Hwf. unfold exec.
  destruct (store_get robotId (robots st)) as [robot|] eqn:Hget;
    [|now rewrite cancelRobotMission_unknown].
  pose proof (WF_get_bound _ _ _ Hwf Hget) as HB.
  destruct (currentMissionId robot) as [mid|] eqn:Hc.
  - unfold Bound in HB. rewrite Hc in HB. destruct HB as [_ [Hne Hm]].
    rewrite (cancelRobotMission_held now robotId robot mid st Hget Hc Hne).
    cbn [snd].
    replace (store_set robotId (mergeRobot robot idleUpdate now) (robots st))
      with (applyUpdate now robotId idleUpdate (robots st))
      by (unfold applyUpdate; now rewrite Hget).
    destruct (store_get mid (missions st)) as [m|] eqn:Em; [|congruence].
    apply WF_update; auto.
    + apply Keyed_set; [apply Hwf|]. cbn.
      apply (Keyed_get_id mission_id (missions st)); [apply Hwf|exact Em].
    + intros k. apply store_set_keeps.
    + intros r0 _. reflexivity.
  - rewrite (cancelRobotMission_falsy now robotId robot st Hget); [exact Hwf|].
    now rewrite Hc.
Qed.

Lemma initialFleet_idle t0 :
  Keyed robot_id (robots (initialFleet t0))
  /\ missions (initialFleet t0) = []
  /\ forall r, In r (store_values (robots (initialFleet t0))) ->
       status r = RobotStatus.idle /\ currentMissionId r = None.
Proof.
  unfold initialFleet, initializeRobots. rewrite exec_bind.
  set (P := fun st : State =>
    Keyed robot_id (robots st) /\ missions st = []
    /\ forall r, In r (store_values (robots st)) ->
         status r = RobotStatus.idle /\ currentMissionId r = None).
  assert (Hstep : forall l st, P st ->
    P (exec (forEach l (fun i =>
         setRobot (robotIdOf i)
           (mkRobot (robotIdOf i) RobotStatus.idle None t0))) st)).
  { induction l as [|i l IH]; intros st HP; [exact HP|].
    rewrite exec_forEach_cons. apply IH. destruct HP as [HK [HM Hall]].
    unfold exec, setRobot. cbn [snd robots missions]. split; [|split; [exact HM|]].
    - now apply Keyed_set.
    - intros r Hr. apply store_set_value in Hr. destruct Hr as [->|Hr]; auto. }
  apply (Hstep (seq 1 fleetSize) (exec (putRobots []) emptyState)).
  split; [split; [constructor|intros k v []]|split; [reflexivity|intros r []]].
Qed.

Lemma initialFleet_WF t0 : WF (initialFleet t0).
Proof.
  destruct (initialFleet_idle t0) as [HK [HM Hall]].
  split; [exact HK|split].
  - rewrite HM. split; [constructor|]. intros k v [].
  - intros r Hr. destruct (Hall r Hr) as [Hs Hc]. unfold Bound. now rewrite Hc.
Qed.

Lemma runEvents_WF evs st : WF st -> WF (exec (runEvents evs) st).
Proof.
  unfold runEvents. revert st. induction evs as [|e evs IH]; intros st Hwf;
    [exact Hwf|].
  rewrite exec_forEach_cons. apply IH. destruct e as [now|now|now robotId]; cbn [handle].
  - now apply createNewMissions_WF.
  - now apply updateRobotStates_WF.
  - rewrite exec_bind. cbn [exec ret snd]. now apply cancelRobotMission_WF.
Qed.

Lemma filter_by_key_length {A} (f : A -> string) (k : string) (l : list A) :
  NoDup (map f l) -> length (filter (fun x => String.eqb (f x) k) l) <= 1.
Proof.
  induction l as [|x l IH]; cbn; [lia|].
  intros Hnd. inversion Hnd as [|? ? Hnotin Hnd']; subst.
  destruct (String.eqb (f x) k) eqn:E; [|now apply IH].
  apply String.eqb_eq in E. cbn.
  assert (filter (fun y => String.eqb (f y) k) l = []) as ->; [|cbn; lia].
  clear IH Hnd Hnd'. induction l as [|y l IH]; [reflexivity|].
  cbn. destruct (String.eqb (f y) k) eqn:Ey.
  - apply String.eqb_eq in Ey. exfalso. apply Hnotin. left. congruence.
  - apply IH. intros H. apply Hnotin. now right.
Qed.

(** C1.  After the fleet is initialised and any sequence of
    [createNewMissions], [updateRobotStates] and [cancelRobotMission] calls
    has run, every robot of the registry is idle exactly when its
    [currentMissionId] is null, and at most one record of the mission store
    carries the id the robot references. *)
Theorem robot_binding_invariant (t0 : Z) (evs : list Event) (k : string) (r : Robot) :
  let st := exec (runEvents evs) (initialFleet t0) in
  store_get k (robots st) = Some r ->
  (status r = RobotStatus.idle <-> currentMissionId r = None)
  /\ length (referencedMissions st r) <= 1.
Proof.
  cbn zeta. intros Hget.
  assert (Hwf : WF (exec (runEvents evs) (initialFleet t0)))
    by apply runEvents_WF, initialFleet_WF.
  pose proof (WF_get_bound _ _ _ Hwf Hget) as HB. unfold Bound in HB.
  unfold referencedMissions. destruct (currentMissionId r) as [mid|].
  - split.
    + destruct HB as [Hs _]. split; [contradiction|discriminate].
    + apply filter_by_key_length. rewrite (Keyed_ids mission_id); apply Hwf.
  - split; [tauto|cbn; lia].
Qed.

(** ** A whole advancement tick, seen from one robot and one mission *)

Lemma tick_mission_get now st mid :
  store_get mid (missions (exec (updateRobotStates now) st))
  = option_map
      (fun m => if heldBy mid (store_values (robots st))
                then advanceMission now m else m)
      (store_get mid (missions st)).
Proof. rewrite updateRobotStates_exec. apply forEach_missions_get. Qed.

(** The callback of robot [r] reads the mission store left by the callbacks
    of the robots enumerated before it, and no other callback writes [r]. *)
Lemma tick_robot_get now st rid r :
  Keyed robot_id (robots st) ->
  store_get rid (robots st) = Some r ->
  exists l1 l2,
    store_values (robots st) = l1 ++ r :: l2
    /\ store_get rid (robots (exec (updateRobotStates now) st))
       = Some (ownUpdate now r (missions (exec (forEach l1 (advanceRobot now)) st))).
Proof.
  intros HK Hget.
  pose proof (Keyed_get_id _ _ _ _ HK Hget) as Hid.
  pose proof (snapshot_nodup st HK) as Hnd.
  apply store_get_in in Hget. apply in_split in Hget.
  destruct Hget as [s1 [s2 Hs]].
  assert (Hv : store_values (robots st) = map snd s1 ++ r :: map snd s2).
  { unfold store_values. rewrite Hs, map_app. reflexivity. }
  exists (map snd s1), (map snd s2). split; [exact Hv|].
  rewrite Hv, map_app in Hnd. cbn [map] in Hnd.
  apply NoDup_remove_2 in Hnd. rewrite Hid in Hnd.
  assert (Hget : store_get rid (robots st) = Some r).
  { apply store_in_get; [apply HK|]. rewrite Hs. apply in_elt. }
  rewrite updateRobotStates_exec, Hv, exec_forEach_app, exec_forEach_cons.
  rewrite forEach_robots_other
    by (intros H; apply Hnd; apply in_or_app; now right).
  rewrite <- Hid. apply advanceRobot_robots_own. rewrite Hid.
  rewrite forEach_robots_other
    by (intros H; apply Hnd; apply in_or_app; now left).
  exact Hget.
Qed.

Lemma tick_robot_unheld now st rid r :
  Keyed robot_id (robots st) ->
  store_get rid (robots st) = Some r ->
  currentMissionId r = None ->
  store_get rid (robots (exec (updateRobotStates now) st)) = Some r.
Proof.
  intros HK Hget Hc.
  destruct (tick_robot_get now st rid r HK Hget) as [l1 [l2 [_ ->]]].
  unfold ownUpdate, heldMission. now rewrite Hc.
Qed.

Lemma runTicks_cons t times st :
  exec (runTicks (t :: times)) st = exec (runTicks times) (exec (updateRobotStates t) st).
Proof. unfold runTicks. apply exec_forEach_cons. Qed.

Lemma runTicks_cancelled times st mid m :
  store_get mid (missions st) = Some m ->
  currentStage m = Stage.cancelled ->
  store_get mid (missions (exec (runTicks times) st)) = Some m.
Proof.
  revert st. induction times as [|t times IH]; intros st Hm Hc; [exact Hm|].
  rewrite runTicks_cons. apply IH; [|exact Hc].
  rewrite tick_mission_get, Hm. cbn [option_map].
  rewrite (advanceMission_cancelled t m Hc). now destruct (heldBy _ _).
Qed.

Lemma runTicks_unheld times st rid r :
  WF st ->
  store_get rid (robots st) = Some r ->
  currentMissionId r = None ->
  store_get rid (robots (exec (runTicks times) st)) = Some r.
Proof.
  revert st. induction times as [|t times IH]; intros st Hwf Hget Hc; [exact Hget|].
  rewrite runTicks_cons. apply IH; [now apply updateRobotStates_WF| |exact Hc].
  apply tick_robot_unheld; [apply Hwf|exact Hget|exact Hc].
Qed.

(** C3.  A mission whose [currentStage] is [cancelled] is left untouched,
    stage and [stageStartTime] included, by every later run of advancement
    ticks.  In particular, when a robot holding a mission (say in [travel])
    is cancelled, then after any ticks the mission is still [cancelled] with
    the [stageStartTime] it had, and the robot is still the idle record the
    cancellation wrote. *)
Theorem cancelled_is_absorbing :
  (forall (times : list Z) (st : State) (mid : string) (m : Mission),
     store_get mid (missions st) = Some m ->
     currentStage m = Stage.cancelled ->
     store_get mid (missions (exec (runTicks times) st)) = Some m)
  /\ (forall (tc : Z) (robotId : string) (times : list Z) (st : State)
        (robot : Robot) (mid : string) (m : Mission),
        wf st = true ->
        store_get robotId (robots st) = Some robot ->
        currentMissionId robot = Some mid ->
        store_get mid (missions st) = Some m ->
        let st' := exec (runTicks times) (exec (cancelRobotMission tc robotId) st) in
        eval (cancelRobotMission tc robotId) st = true
        /\ store_get mid (missions st')
           = Some (mkMission (mission_id m) (assignedRobotId m) (createdAt m)
                     Stage.cancelled (stageStartTime m))
        /\ store_get robotId (robots st')
           = Some (mkRobot (robot_id robot) RobotStatus.idle None tc)).
Proof.
  split; [exact runTicks_cancelled|].
  intros tc robotId times st robot mid m Hwf Hget Hc Hm. cbn zeta.
  apply wf_spec in Hwf.
  pose proof (WF_get_bound _ _ _ Hwf Hget) as HB. unfold Bound in HB.
  rewrite Hc in HB. destruct HB as [_ [Hne _]].
  pose proof (cancelRobotMission_held tc robotId robot mid st Hget Hc Hne) as Hrun.
  rewrite Hm in Hrun.
  assert (Hev : eval (cancelRobotMission tc robotId) st = true)
    by (unfold eval; now rewrite Hrun).
  pose proof (cancelRobotMission_WF tc robotId st Hwf) as Hwf'.
  assert (Hex : exec (cancelRobotMission tc robotId) st
                = mkState
                    (store_set robotId (mergeRobot robot idleUpdate tc) (robots st))
                    (store_set mid (cancelMission m) (missions st)))
    by (unfold exec; now rewrite Hrun).
  rewrite Hex in *. split; [exact Hev|split].
  - apply runTicks_cancelled; [|reflexivity]. apply store_get_set_same.
  - apply runTicks_unheld; [exact Hwf'| |reflexivity].
    cbn [robots]. rewrite store_get_set_same. reflexivity.
Qed.

Lemma filter_nil_false {A} (p : A -> bool) (l : list A) :
  filter p l = [] -> forall x, In x l -> p x = false.
Proof.
  induction l as [|y l IH]; cbn; [tauto|].
  destruct (p y) eqn:E; [discriminate|].
  intros H x [<-|Hx]; auto.
Qed.

Lemma heldBy_true mid rs r :
  In r rs -> currentMissionId r = Some mid -> mid <> EmptyString ->
  heldBy mid rs = true.
Proof.
  intros Hin Hc Hne. apply existsb_exists. exists r. split; [exact Hin|].
  unfold truthy, holds. rewrite Hc, String.eqb_refl.
  apply String.eqb_neq in Hne. now rewrite Hne.
Qed.

Lemma heldBy_false mid rs :
  filter (holds mid) rs = [] -> heldBy mid rs = false.
Proof.
  intros H. unfold heldBy. destruct (existsb _ rs) eqn:E; [|reflexivity].
  apply existsb_exists in E. destruct E as [x [Hx E]].
  apply andb_true_iff in E. destruct E as [_ E].
  now rewrite (filter_nil_false _ _ H x Hx) in E.
Qed.

Lemma holds_spec mid r : holds mid r = true <-> currentMissionId r = Some mid.
Proof.
  unfold holds. destruct (currentMissionId r) as [mid'|].
  - rewrite String.eqb_eq. split; congruence.
  - split; discriminate.
Qed.

(** What a robot that is the only holder of its mission sees of one tick. *)
Lemma tick_sole_holder now st r mid m :
  WF st -> holders mid st = [r] -> store_get mid (missions st) = Some m ->
  store_get mid (missions (exec (updateRobotStates now) st))
  = Some (advanceMission now m)
  /\ store_get (robot_id r) (robots (exec (updateRobotStates now) st))
     = Some (match robotUpdateFor now m with
             | Some u => mergeRobot r u now
             | None => r
             end).
Proof.
  intros Hwf Hh Hm.
  assert (Hin : In r (holders mid st)) by (rewrite Hh; now left).
  apply filter_In in Hin. destruct Hin as [Hin Hc]. apply holds_spec in Hc.
  assert (HB : Bound (missions st) r) by now apply Hwf.
  unfold Bound in HB. rewrite Hc in HB. destruct HB as [_ [Hne _]].
  split.
  - rewrite tick_mission_get, Hm. cbn [option_map].
    now rewrite (heldBy_true mid _ r Hin Hc Hne).
  - assert (Hget : store_get (robot_id r) (robots st) = Some r)
      by (apply (Keyed_value_get robot_id); [apply Hwf|exact Hin]).
    destruct (tick_robot_get now st _ r (proj1 Hwf) Hget) as [l1 [l2 [Hv ->]]].
    f_equal. unfold ownUpdate.
    assert (Hseen : heldMission r (missions (exec (forEach l1 (advanceRobot now)) st))
                    = Some (mid, m)).
    { apply heldMission_some. repeat split; auto.
      rewrite forEach_missions_get, Hm. cbn [option_map].
      rewrite heldBy_false; [reflexivity|].
      unfold holders in Hh. rewrite Hv, filter_app in Hh. cbn [filter] in Hh.
      rewrite (proj2 (holds_spec mid r) Hc) in Hh.
      destruct (filter (holds mid) l1) as [|x l]; [reflexivity|].
      cbn in Hh. injection Hh as _ Hh. now destruct l. }
    now rewrite Hseen.
Qed.

Lemma store_get_split {V} (k : string) (v : V) (s : store V) :
  store_get k s = Some v ->
  exists rest, s = entriesBefore k s ++ (k, v) :: rest.
Proof.
  induction s as [|[k' v'] s IH]; cbn; [discriminate|].
  destruct (String.eqb k k') eqn:E.
  - apply String.eqb_eq in E. subst k'. intros [= ->]. now exists s.
  - intros H. destruct (IH H) as [rest Hrest]. exists rest. cbn. now f_equal.
Qed.

(** [tick_robot_get] with the robots enumerated before [rid] named. *)
Lemma tick_robot_before now st rid r :
  Keyed robot_id (robots st) ->
  store_get rid (robots st) = Some r ->
  store_get rid (robots (exec (updateRobotStates now) st))
  = Some (ownUpdate now r
            (missions
               (exec (forEach (store_values (entriesBefore rid (robots st)))
                        (advanceRobot now)) st))).
Proof.
  intros HK Hget.
  pose proof (Keyed_get_id _ _ _ _ HK Hget) as Hid.
  pose proof (snapshot_nodup st HK) as Hnd.
  destruct (store_get_split _ _ _ Hget) as [s2 Hs].
  set (s1 := entriesBefore rid (robots st)) in *.
  assert (Hv : store_values (robots st) = store_values s1 ++ r :: store_values s2).
  { unfold store_values. rewrite Hs at 1. rewrite map_app. reflexivity. }
  rewrite Hv, map_app in Hnd. cbn [map] in Hnd.
  apply NoDup_remove_2 in Hnd. rewrite Hid in Hnd.
  rewrite updateRobotStates_exec, Hv, exec_forEach_app, exec_forEach_cons.
  rewrite forEach_robots_other
    by (intros H; apply Hnd; apply in_or_app; now right).
  rewrite <- Hid. apply advanceRobot_robots_own. rewrite Hid.
  rewrite forEach_robots_other
    by (intros H; apply Hnd; apply in_or_app; now left).
  exact Hget.
Qed.

(** What one tick does to a robot holding an existing mission: the mission
    is advanced once, and the robot's callback reads it as the callbacks of
    the earlier holders left it. *)
Lemma tick_by_holder now st rid r mid m :
  WF st ->
  store_get rid (robots st) = Some r ->
  currentMissionId r = Some mid ->
  store_get mid (missions st) = Some m ->
  store_get mid (missions (exec (updateRobotStates now) st))
  = Some (advanceMission now m)
  /\ store_get rid (robots (exec (updateRobotStates now) st))
     = Some (match robotUpdateFor now
                     (match earlierHolders mid rid st with
                      | [] => m
                      | _ :: _ => advanceMission now m
                      end)
             with
             | Some u => mergeRobot r u now
             | None => r
             end).
Proof.
  intros Hwf Hget Hc Hm.
  pose proof (WF_get_bound _ _ _ Hwf Hget) as HB. unfold Bound in HB.
  rewrite Hc in HB. destruct HB as [_ [Hne _]].
  assert (Hin : In r (store_values (robots st))).
  { apply store_get_in in Hget. apply (in_map snd) in Hget. exact Hget. }
  split.
  - rewrite tick_mission_get, Hm. cbn [option_map].
    now rewrite (heldBy_true mid _ r Hin Hc Hne).
  - rewrite (tick_robot_before now st rid r (proj1 Hwf) Hget).
    f_equal. unfold ownUpdate, earlierHolders.
    set (l1 := store_values (entriesBefore rid (robots st))).
    assert (Hseen : heldMission r (missions (exec (forEach l1 (advanceRobot now)) st))
                    = Some (mid,
                            if heldBy mid l1 then advanceMission now m else m)).
    { apply heldMission_some. repeat split; auto.
      rewrite forEach_missions_get, Hm. reflexivity. }
    rewrite Hseen.
    destruct (filter (holds mid) l1) as [|x l] eqn:Ef.
    + now rewrite (heldBy_false _ _ Ef).
    + assert (Hx : In x (filter (holds mid) l1)) by (rewrite Ef; now left).
      apply filter_In in Hx. destruct Hx as [Hx Hhx]. apply holds_spec in Hhx.
      now rewrite (heldBy_true mid l1 x Hx Hhx Hne).
Qed.



(** ** The order of stages *)

Lemma advanceMission_stage now m :
  currentStage m <> Stage.cancelled ->
  currentStage (advanceMission now m) = currentStage m
  \/ (nextStageOf (currentStage m) = Some (currentStage (advanceMission now m))
      /\ currentStage m <> Stage.completed).
Proof.
  intros Hnc. unfold advanceMission, nextStageOf. rewrite array_next.
  destruct (currentStage m) eqn:Es; try contradiction; cbn [Stage.eqb];
    destruct (due now m); cbn; rewrite ?Es; auto; right; split;
    (reflexivity || discriminate).
Qed.

Lemma tick_stage now st mid m :
  store_get mid (missions st) = Some m ->
  currentStage m <> Stage.cancelled ->
  exists m',
    store_get mid (missions (exec (updateRobotStates now) st)) = Some m'
    /\ (currentStage m' = currentStage m
        \/ (nextStageOf (currentStage m) = Some (currentStage m')
            /\ currentStage m <> Stage.completed)).
Proof.
  intros Hm Hnc. rewrite tick_mission_get, Hm. cbn [option_map].
  eexists. split; [reflexivity|].
  destruct (heldBy mid _); [now apply advanceMission_stage|now left].
Qed.

Lemma stageTrace_completed times st mid m :
  store_get mid (missions st) = Some m ->
  currentStage m = Stage.completed ->
  forall x, In x (stageTrace times mid st) -> x = Some Stage.completed.
Proof.
  revert st m. induction times as [|t times IH]; intros st m Hm Hs x.
  - cbn. unfold stageAt. rewrite Hm. cbn. rewrite Hs. intros [<-|[]]. reflexivity.
  - cbn [stageTrace In]. intros [<-|Hx].
    + unfold stageAt. rewrite Hm. cbn. now rewrite Hs.
    + destruct (tick_stage t st mid m Hm) as [m' [Hm' Hst]]; [rewrite Hs; discriminate|].
      apply (IH _ m' Hm'); [|exact Hx].
      destruct Hst as [->|[_ Hne]]; [exact Hs|contradiction].
Qed.

(** C2.  Over any run of advancement ticks, the stages observed for a
    mission that is not cancelled, with repetitions of the current stage
    collapsed, form an initial segment of the part of
    [preparation, travel, delivery, completed] that starts at the mission's
    stage: each stage is followed by the next one only, none is skipped or
    entered again, and a mission observed in [completed] is observed in
    [completed] ever after. *)
Theorem stage_order (times : list Z) (st : State) (mid : string) (m : Mission) :
  store_get mid (missions st) = Some m ->
  currentStage m <> Stage.cancelled ->
  (exists n,
     compress (stageTrace times mid st)
     = map Some (firstn (S n) (stagesFrom (currentStage m))))
  /\ (currentStage m = Stage.completed ->
        forall x, In x (stageTrace times mid st) -> x = Some Stage.completed).
Proof.
  intros Hm Hnc. split; [|intros Hs; now apply (stageTrace_completed times st mid m)].
  revert st m Hm Hnc. induction times as [|t times IH]; intros st m Hm Hnc.
  - exists 0. cbn. unfold stageAt. rewrite Hm. cbn.
    destruct (currentStage m); try contradiction; reflexivity.
  - cbn [stageTrace compress].
    destruct (tick_stage t st mid m Hm Hnc) as [m' [Hm' Hst]].
    assert (Hnc' : currentStage m' <> Stage.cancelled).
    { destruct Hst as [->|[Hn _]]; [exact Hnc|].
      unfold nextStageOf in Hn. rewrite array_next in Hn.
      destruct (currentStage m); try congruence; injection Hn as <-; discriminate. }
    destruct (IH _ m' Hm' Hnc') as [n ->].
    unfold stageAt. rewrite Hm. cbn [option_map].
    destruct Hst as [->|[Hn Hne]].
    + exists n. destruct (currentStage m); try contradiction; reflexivity.
    + exists (S n). unfold nextStageOf in Hn. rewrite array_next in Hn.
      destruct (currentStage m); try congruence; injection Hn as <-; reflexivity.
Qed.

(** ** Time spent in a stage under periodic ticks *)

Lemma forEach_missions_fixed now rs st mid m :
  store_get mid (missions st) = Some m ->
  advanceMission now m = m ->
  store_get mid (missions (exec (forEach rs (advanceRobot now)) st)) = Some m.
Proof.
  intros Hm Hfix. rewrite forEach_missions_get, Hm. cbn [option_map].
  rewrite Hfix. now destruct (heldBy mid rs).
Qed.

Lemma tick_robot_fixed_mission now st rid r mid m :
  WF st ->
  store_get rid (robots st) = Some r ->
  currentMissionId r = Some mid ->
  store_get mid (missions st) = Some m ->
  advanceMission now m = m ->
  store_get rid (robots (exec (updateRobotStates now) st))
  = Some (match robotUpdateFor now m with
          | Some u => mergeRobot r u now
          | None => r
          end).
Proof.
  intros Hwf Hget Hc Hm Hfix.
  pose proof (WF_get_bound _ _ _ Hwf Hget) as HB. unfold Bound in HB.
  rewrite Hc in HB. destruct HB as [_ [Hne _]].
  destruct (tick_robot_get now st rid r (proj1 Hwf) Hget) as [l1 [l2 [_ ->]]].
  unfold ownUpdate.
  assert (Hseen : heldMission r (missions (exec (forEach l1 (advanceRobot now)) st))
                  = Some (mid, m)).
  { apply heldMission_some. repeat split; auto.
    now apply forEach_missions_fixed. }
  now rewrite Hseen.
Qed.

Lemma tick_held_not_due now st rid r mid m :
  WF st ->
  store_get rid (robots st) = Some r ->
  currentMissionId r = Some mid ->
  store_get mid (missions st) = Some m ->
  due now m = false ->
  store_get mid (missions (exec (updateRobotStates now) st)) = Some m
  /\ store_get rid (robots (exec (updateRobotStates now) st)) = Some r.
Proof.
  intros Hwf Hget Hc Hm Hdue.
  pose proof (advanceMission_not_due now m Hdue) as Hfix. split.
  - rewrite updateRobotStates_exec. now apply forEach_missions_fixed.
  - rewrite (tick_robot_fixed_mission now st rid r mid m); auto.
    unfold robotUpdateFor. rewrite Hdue. now destruct (Stage.eqb _ _).
Qed.

Lemma tick_held_due now st rid r mid m :
  WF st ->
  store_get rid (robots st) = Some r ->
  currentMissionId r = Some mid ->
  store_get mid (missions st) = Some m ->
  currentStage m <> Stage.cancelled ->
  due now m = true ->
  match nextStageOf (currentStage m) with
  | Some s' =>
      store_get mid (missions (exec (updateRobotStates now) st))
      = Some (enterStage m s' now)
  | None =>
      store_get mid (missions (exec (updateRobotStates now) st)) = Some m
      /\ store_get rid (robots (exec (updateRobotStates now) st))
         = Some (mkRobot (robot_id r) RobotStatus.idle None now)
  end.
Proof.
  intros Hwf Hget Hc Hm Hnc Hdue.
  pose proof (WF_get_bound _ _ _ Hwf Hget) as HB. unfold Bound in HB.
  rewrite Hc in HB. destruct HB as [_ [Hne _]].
  assert (Hheld : heldBy mid (store_values (robots st)) = true).
  { apply (heldBy_true mid _ r); auto. now apply store_get_value in Hget. }
  apply stage_eqb_neq in Hnc.
  destruct (nextStageOf (currentStage m)) as [s'|] eqn:En.
  - rewrite tick_mission_get, Hm, Hheld. cbn [option_map].
    unfold advanceMission. now rewrite Hnc, Hdue, En.
  - assert (Hfix : advanceMission now m = m).
    { unfold advanceMission. now rewrite Hnc, Hdue, En. }
    split.
    + rewrite updateRobotStates_exec. now apply forEach_missions_fixed.
    + rewrite (tick_robot_fixed_mission now st rid r mid m); auto.
      unfold robotUpdateFor. rewrite Hnc, Hdue, En.
      unfold nextStageOf in En. rewrite array_next in En.
      destruct (currentStage m); try discriminate. reflexivity.
Qed.

Lemma overshoot_fuel (N : nat) : forall (T t0 : Z) (st : State) (rid : string)
  (r : Robot) (mid : string) (m : Mission) (info : StageInfo),
  WF st ->
  store_get rid (robots st) = Some r ->
  currentMissionId r = Some mid ->
  store_get mid (missions st) = Some m ->
  missionStages (currentStage m) = Some info ->
  (0 < T)%Z ->
  (t0 - stageStartTime m < 1000 * duration info)%Z ->
  (stageStartTime m + 1000 * duration info - t0 <= Z.of_nat N * T)%Z ->
  exists k : nat,
    (forall j, j <= k ->
       store_get mid (missions (ticks T t0 j st)) = Some m
       /\ store_get rid (robots (ticks T t0 j st)) = Some r)
    /\ match nextStageOf (currentStage m) with
       | Some s' =>
           store_get mid (missions (ticks T t0 (S k) st))
           = Some (enterStage m s' (t0 + Z.of_nat (S k) * T)%Z)
       | None =>
           store_get mid (missions (ticks T t0 (S k) st)) = Some m
           /\ store_get rid (robots (ticks T t0 (S k) st))
              = Some (mkRobot (robot_id r) RobotStatus.idle None
                        (t0 + Z.of_nat (S k) * T)%Z)
       end
    /\ (1000 * duration info <= t0 + Z.of_nat (S k) * T - stageStartTime m
        < 1000 * duration info + T)%Z.
Proof.
  induction N as [|N IH]; intros T t0 st rid r mid m info Hwf Hget Hc Hm Hinfo HT
    Hearly Hfuel.
  - change (Z.of_nat 0 * T)%Z with 0%Z in Hfuel. lia.
  - assert (Hnc : currentStage m <> Stage.cancelled)
      by (intros E; rewrite E in Hinfo; discriminate).
    destruct (due (t0 + T) m) eqn:Hdue.
    + exists 0. split; [|split].
      * intros j Hj. assert (j = 0) as -> by lia. cbn [ticks]. auto.
      * cbn [ticks]. replace (t0 + Z.of_nat 1 * T)%Z with (t0 + T)%Z by lia.
        now apply tick_held_due.
      * unfold due in Hdue. rewrite Hinfo in Hdue. apply Z.leb_le in Hdue. lia.
    + destruct (tick_held_not_due (t0 + T) st rid r mid m Hwf Hget Hc Hm Hdue)
        as [Hm1 Hget1].
      assert (Hlate : (t0 + T - stageStartTime m < 1000 * duration info)%Z).
      { unfold due in Hdue. rewrite Hinfo in Hdue. apply Z.leb_gt in Hdue. lia. }
      destruct (IH T (t0 + T)%Z (exec (updateRobotStates (t0 + T)) st) rid r mid m info)
        as [k [Hbefore [Hleave Hbound]]]; auto.
      * now apply updateRobotStates_WF.
      * rewrite Nat2Z.inj_succ, Z.mul_succ_l in Hfuel. lia.
      * assert (Htime : (t0 + T + Z.of_nat (S k) * T = t0 + Z.of_nat (S (S k)) * T)%Z).
        { rewrite (Nat2Z.inj_succ (S k)), Z.mul_succ_l. lia. }
        exists (S k). split; [|split].
        -- intros [|j] Hj; [cbn [ticks]; auto|]. cbn [ticks]. apply Hbefore. lia.
        -- rewrite <- Htime. exact Hleave.
        -- rewrite <- Htime. exact Hbound.
Qed.

(** C7.  A robot holds a mission whose stage lasts [D] seconds and whose
    duration has not yet elapsed at [t0]; advancement ticks run at [t0 + T],
    [t0 + 2T], ...  Then some tick takes the mission out of the stage (into
    the next stage, or, from [completed], by idling the robot), every earlier
    tick leaves mission and robot as they are, and the time from
    [stageStartTime] to that tick is at least [1000 D] and less than
    [1000 D + T] milliseconds. *)
Theorem bounded_overshoot (T t0 : Z) (st : State) (rid : string) (r : Robot)
  (mid : string) (m : Mission) (info : StageInfo) :
  wf st = true ->
  store_get rid (robots st) = Some r ->
  currentMissionId r = Some mid ->
  store_get mid (missions st) = Some m ->
  missionStages (currentStage m) = Some info ->
  (0 < T)%Z ->
  (t0 - stageStartTime m < 1000 * duration info)%Z ->
  exists k : nat,
    let leaving := (t0 + Z.of_nat (S k) * T)%Z in
    (forall j, j <= k ->
       store_get mid (missions (ticks T t0 j st)) = Some m
       /\ store_get rid (robots (ticks T t0 j st)) = Some r)
    /\ match nextStageOf (currentStage m) with
       | Some s' =>
           store_get mid (missions (ticks T t0 (S k) st))
           = Some (mkMission (mission_id m) (assignedRobotId m) (createdAt m)
                     s' leaving)
       | None =>
           store_get mid (missions (ticks T t0 (S k) st)) = Some m
           /\ store_get rid (robots (ticks T t0 (S k) st))
              = Some (mkRobot (robot_id r) RobotStatus.idle None leaving)
       end
    /\ (1000 * duration info <= leaving - stageStartTime m
        < 1000 * duration info + T)%Z.
Proof.
  intros Hwf Hget Hc Hm Hinfo HT Hearly. apply wf_spec in Hwf.
  apply (overshoot_fuel
           (Z.to_nat (stageStartTime m + 1000 * duration info - t0))
           T t0 st rid r mid m info); auto.
  rewrite Z2Nat.id by lia. nia.
Qed.

(** ** Mission creation *)

Lemma last_ascii_append (s t : string) :
  t <> EmptyString -> last_ascii (String.append s t) = last_ascii t.
Proof.
  intros Ht. induction s as [|c s IH]; cbn; [reflexivity|].
  rewrite IH. destruct t as [|d t]; [contradiction|].
  cbn. now destruct (last_ascii t).
Qed.

Lemma append_nonempty_r (s t : string) :
  t <> EmptyString -> String.append s t <> EmptyString.
Proof. destruct s; cbn; [tauto|discriminate]. Qed.

Lemma missionIdOf_last (now : Z) (i : nat) :
  last_ascii (missionIdOf now i) = last_ascii (String.append "-" (string_of_nat i)).
Proof.
  unfold missionIdOf.
  rewrite last_ascii_append by (apply append_nonempty_r; cbn; discriminate).
  apply last_ascii_append. cbn. discriminate.
Qed.

(** The two ids of one batch differ whatever the clock returns between the
    two iterations: they end in [0] and in [1]. *)
Lemma missionIdOf_batch_distinct (now now' : Z) :
  missionIdOf now 0 <> missionIdOf now' 1.
Proof.
  intros E. apply (f_equal last_ascii) in E.
  rewrite !missionIdOf_last in E. discriminate.
Qed.

Lemma missionIdOf_0_1 now : missionIdOf now 0 <> missionIdOf now 1.
Proof. apply missionIdOf_batch_distinct. Qed.

(** The loop of [initializeRobots] leaves a fleet of one hundred robots. *)
Example initialFleet_size : length (robots (initialFleet 0)) = 100.
Proof. vm_compute. reflexivity. Qed.

Lemma filter_keeps_distinct_ids (keep : Robot -> bool) (rs : list Robot) :
  NoDup (map robot_id rs) -> NoDup (map robot_id (filter keep rs)).
Proof.
  induction rs as [|r rs IH]; cbn [filter map]; intros Hnd; [exact Hnd|].
  inversion Hnd as [|? ? Hfresh Hrest]; subst.
  destruct (keep r); cbn [map]; [|now apply IH].
  constructor; [|now apply IH].
  intros Hin. apply Hfresh. apply in_map_iff in Hin.
  destruct Hin as [r' [Hid Hin]]. apply filter_In in Hin.
  rewrite <- Hid. apply in_map. apply Hin.
Qed.

Lemma getIdleRobots_eval st :
  eval getIdleRobots st
  = filter (fun robot => RobotStatus.eqb (status robot) RobotStatus.idle)
      (store_values (robots st)).
Proof. reflexivity. Qed.

Lemma applyUpdate_get_own now id u rs robot :
  store_get id rs = Some robot ->
  store_get id (applyUpdate now id u rs) = Some (mergeRobot robot u now).
Proof. intros H. unfold applyUpdate. rewrite H. apply store_get_set_same. Qed.

(** C6.  One call of [createNewMissions] in a well-formed state, with
    [idle] the idle robots in registry order and [n = min 2 (length idle)]:
    it writes the [n] missions [mission-<now>-0 .. mission-<now>-(n-1)],
    whose ids differ, one for each of the first [n] idle robots, whose ids
    differ; each new mission is in [preparation] and its robot is [assigned]
    to it; no other mission and no other robot changes; the mission store
    grows by exactly these [n] keys when they were not in use; with no idle
    robot the state is unchanged. *)
Theorem createNewMissions_batch (now : Z) (st : State) :
  wf st = true ->
  let idle := eval getIdleRobots st in
  let n := Nat.min 2 (length idle) in
  let ids := map (missionIdOf now) (seq 0 n) in
  let st' := exec (createNewMissions now) st in
  idle = filter (fun robot => RobotStatus.eqb (status robot) RobotStatus.idle)
           (store_values (robots st))
  /\ NoDup ids
  /\ NoDup (map robot_id (firstn n idle))
  /\ (forall i robot, nth_error (firstn n idle) i = Some robot ->
        store_get (missionIdOf now i) (missions st')
        = Some (mkMission (missionIdOf now i) (Some (robot_id robot)) now
                  Stage.preparation now)
        /\ store_get (robot_id robot) (robots st')
           = Some (mkRobot (robot_id robot) RobotStatus.assigned
                     (Some (missionIdOf now i)) now))
  /\ (forall k, ~ In k ids -> store_get k (missions st') = store_get k (missions st))
  /\ (forall k, ~ In k (map robot_id (firstn n idle)) ->
        store_get k (robots st') = store_get k (robots st))
  /\ ((forall k, In k ids -> store_get k (missions st) = None) ->
        store_keys (missions st') = store_keys (missions st) ++ ids)
  /\ (idle = [] -> st' = st).
Proof.
  intros Hwf. apply wf_spec in Hwf. cbn zeta.
  split; [apply getIdleRobots_eval|].
  rewrite createNewMissions_exec.
  assert (Hnd : NoDup (map robot_id (eval getIdleRobots st))).
  { rewrite getIdleRobots_eval. apply filter_keeps_distinct_ids, snapshot_nodup, Hwf. }
  assert (Hin : forall x, In x (eval getIdleRobots st) ->
                  store_get (robot_id x) (robots st) = Some x).
  { intros x Hx. rewrite getIdleRobots_eval in Hx. apply filter_In in Hx.
    apply (Keyed_value_get robot_id); [apply Hwf|apply Hx]. }
  destruct (eval getIdleRobots st) as [|a [|b l]].
  - cbn [length Nat.min seq map firstn].
    split; [constructor|]. split; [constructor|].
    split; [intros [|i] robot H; discriminate|].
    split; [reflexivity|]. split; [reflexivity|].
    split; [intros _; now rewrite app_nil_r|reflexivity].
  - pose proof (Hin a (or_introl eq_refl)) as Ha.
    cbn [length Nat.min seq map firstn]. unfold assignStep. cbn [robots missions].
    split; [constructor; [cbn; tauto|constructor]|].
    split; [constructor; [cbn; tauto|constructor]|].
    split; [|split; [|split; [|split]]].
    + intros [|[|i]] robot H; try discriminate. injection H as <-.
      rewrite store_get_set_same, (applyUpdate_get_own _ _ _ _ _ Ha). split; reflexivity.
    + intros k Hk. apply store_get_set_other. intros ->. apply Hk. now left.
    + intros k Hk. apply applyUpdate_get_other. intros ->. apply Hk. now left.
    + intros Hfresh. apply store_keys_set_absent. apply Hfresh. now left.
    + discriminate.
  - pose proof (Hin a (or_introl eq_refl)) as Ha.
    pose proof (Hin b (or_intror (or_introl eq_refl))) as Hb.
    assert (Hab : robot_id a <> robot_id b).
    { cbn in Hnd. inversion Hnd as [|? ? Hnotin _]; subst.
      intros E. apply Hnotin. left. now symmetry. }
    pose proof (missionIdOf_0_1 now) as Hids.
    cbn [length Nat.min seq map firstn]. unfold assignStep. cbn [robots missions].
    split; [constructor; [intros [E|[]]; now apply Hids
                         |constructor; [cbn; tauto|constructor]]|].
    split; [constructor; [intros [E|[]]; apply Hab; now symmetry
                         |constructor; [cbn; tauto|constructor]]|].
    split; [|split; [|split; [|split]]].
    + intros [|[|[|i]]] robot H; try discriminate; injection H as <-.
      * rewrite store_get_set_other, store_get_set_same by exact Hids.
        rewrite applyUpdate_get_other, (applyUpdate_get_own _ _ _ _ _ Ha) by exact Hab.
        split; reflexivity.
      * rewrite store_get_set_same.
        rewrite (applyUpdate_get_own _ _ _ _ b).
        -- split; reflexivity.
        -- rewrite applyUpdate_get_other; [exact Hb|congruence].
    + intros k Hk. cbn [In] in Hk.
      rewrite !store_get_set_other; [reflexivity|intuition congruence..].
    + intros k Hk. cbn [In] in Hk.
      rewrite !applyUpdate_get_other; [reflexivity|intuition congruence..].
    + intros Hfresh. rewrite store_keys_set_absent.
      * rewrite store_keys_set_absent by (apply Hfresh; now left).
        now rewrite <- app_assoc.
      * rewrite store_get_set_other by congruence. apply Hfresh. right. now left.
    + discriminate.
Qed.

(** ** Mission ids are not shared on fresh runs

    The hypothesis of [tick_sole_holder] holds in every state reached from
    the initial fleet by a run whose creation ticks draw unused ids. *)

Lemma applyUpdate_get now id u rs k :
  store_get k (applyUpdate now id u rs)
  = if String.eqb k id
    then option_map (fun r => mergeRobot r u now) (store_get id rs)
    else store_get k rs.
Proof.
  destruct (String.eqb k id) eqn:E.
  - apply String.eqb_eq in E. subst k. unfold applyUpdate.
    destruct (store_get id rs) as [r|] eqn:Er; [apply store_get_set_same|exact Er].
  - apply String.eqb_neq in E. now apply applyUpdate_get_other.
Qed.

Lemma Narrows_refl rs : Narrows rs rs.
Proof. intros k r' H. right. now exists r'. Qed.

Lemma Narrows_trans rs1 rs2 rs3 : Narrows rs1 rs2 -> Narrows rs2 rs3 -> Narrows rs1 rs3.
Proof.
  intros H12 H23 k r3 H3. destruct (H23 k r3 H3) as [Hn|[r2 [H2 E2]]]; [now left|].
  destruct (H12 k r2 H2) as [Hn|[r1 [H1 E1]]].
  - left. congruence.
  - right. exists r1. split; congruence.
Qed.

Lemma Narrows_unshared rs rs' : Narrows rs rs' -> Unshared rs -> Unshared rs'.
Proof.
  intros HN HU k1 k2 r1 r2 mid H1 H2 Hc1 Hc2.
  destruct (HN k1 r1 H1) as [E|[r1' [H1' E1]]]; [congruence|].
  destruct (HN k2 r2 H2) as [E|[r2' [H2' E2]]]; [congruence|].
  apply (HU k1 k2 r1' r2' mid); congruence.
Qed.

Lemma applyUpdate_narrows now id u rs :
  upd_currentMissionId u = None \/ upd_currentMissionId u = Some None ->
  Narrows rs (applyUpdate now id u rs).
Proof.
  intros Hu k r'. rewrite applyUpdate_get. destruct (String.eqb k id) eqn:E.
  - apply String.eqb_eq in E. subst k.
    destruct (store_get id rs) as [r|]; [|discriminate].
    cbn. intros [= <-]. unfold mergeRobot. cbn.
    destruct Hu as [->| ->]; [right|now left]. now exists r.
  - intros H. right. now exists r'.
Qed.

Lemma advanceRobot_narrows now r st :
  Narrows (robots st) (robots (exec (advanceRobot now r) st)).
Proof.
  rewrite advanceRobot_exec.
  destruct (heldMission r (missions st)) as [[mid m]|]; [|apply Narrows_refl].
  cbn [robots]. destruct (robotUpdateFor now m) as [u|] eqn:Eu; [|apply Narrows_refl].
  apply applyUpdate_narrows. apply robotUpdateFor_shape in Eu.
  destruct Eu as [->|[s [_ ->]]]; [now right|now left].
Qed.

Lemma updateRobotStates_narrows now st :
  Narrows (robots st) (robots (exec (updateRobotStates now) st)).
Proof.
  rewrite updateRobotStates_exec. generalize (store_values (robots st)) as rs.
  intros rs. revert st. induction rs as [|r rs IH]; intros st; [apply Narrows_refl|].
  rewrite exec_forEach_cons.
  eapply Narrows_trans; [apply advanceRobot_narrows|apply IH].
Qed.

Lemma cancelRobotMission_narrows now robotId st :
  Narrows (robots st) (robots (exec (cancelRobotMission now robotId) st)).
Proof.
  unfold exec.
  destruct (store_get robotId (robots st)) as [robot|] eqn:Hget;
    [|rewrite cancelRobotMission_unknown by exact Hget; apply Narrows_refl].
  destruct (truthy (currentMissionId robot)) eqn:Ht;
    [|rewrite (cancelRobotMission_falsy now robotId robot) by assumption;
      apply Narrows_refl].
  apply truthy_some in Ht. destruct Ht as [mid [Hc Hne]].
  rewrite (cancelRobotMission_held now robotId robot mid st Hget Hc Hne).
  cbn [snd robots].
  replace (store_set robotId (mergeRobot robot idleUpdate now) (robots st))
    with (applyUpdate now robotId idleUpdate (robots st))
    by (unfold applyUpdate; now rewrite Hget).
  apply applyUpdate_narrows. now right.
Qed.

Lemma assignStep_unshared now i robot st :
  WF st -> Unshared (robots st) ->
  store_get (missionIdOf now i) (missions st) = None ->
  Unshared (robots (assignStep now i robot st)).
Proof.
  intros Hwf HU Hfresh. unfold assignStep. cbn [robots].
  assert (Hold : forall k r, store_get k (robots st) = Some r ->
                   currentMissionId r <> Some (missionIdOf now i)).
  { intros k r Hg Hc. pose proof (WF_get_bound _ _ _ Hwf Hg) as HB.
    unfold Bound in HB. rewrite Hc in HB. now destruct HB as [_ [_ HB]]. }
  intros k1 k2 r1 r2 mid. rewrite !applyUpdate_get.
  destruct (String.eqb k1 (robot_id robot)) eqn:E1;
    destruct (String.eqb k2 (robot_id robot)) eqn:E2.
  - apply String.eqb_eq in E1, E2. congruence.
  - destruct (store_get (robot_id robot) (robots st)); [|discriminate].
    cbn. intros [= <-] H2 [= <-] Hc2. exfalso. exact (Hold k2 r2 H2 Hc2).
  - destruct (store_get (robot_id robot) (robots st)); [|discriminate].
    cbn. intros H1 [= <-] Hc1 [= <-]. exfalso. exact (Hold k1 r1 H1 Hc1).
  - apply HU.
Qed.

Lemma createNewMissions_unshared now st :
  WF st -> Unshared (robots st) -> freshIds now st = true ->
  Unshared (robots (exec (createNewMissions now) st)).
Proof.
  intros Hwf HU Hfresh. unfold freshIds in Hfresh. cbn [seq forallb] in Hfresh.
  rewrite !andb_true_iff, !negb_true_iff in Hfresh.
  destruct Hfresh as [H0 [H1 _]].
  assert (F0 : store_get (missionIdOf now 0) (missions st) = None)
    by (destruct (store_get (missionIdOf now 0) (missions st)); [discriminate|reflexivity]).
  assert (F1 : store_get (missionIdOf now 1) (missions st) = None)
    by (destruct (store_get (missionIdOf now 1) (missions st)); [discriminate|reflexivity]).
  rewrite createNewMissions_exec.
  destruct (eval getIdleRobots st) as [|a [|b l]]; [exact HU| |].
  - now apply assignStep_unshared.
  - apply assignStep_unshared.
    + now apply assignStep_WF.
    + now apply assignStep_unshared.
    + unfold assignStep. cbn [missions]. rewrite store_get_set_other; [exact F1|].
      intros E. now apply (missionIdOf_0_1 now).
Qed.

Lemma freshRun_unshared evs st :
  WF st -> Unshared (robots st) -> freshRun evs st = true ->
  Unshared (robots (exec (runEvents evs) st)).
Proof.
  unfold runEvents. revert st. induction evs as [|e evs IH]; intros st Hwf HU Hf;
    [exact HU|].
  cbn [freshRun] in Hf. apply andb_true_iff in Hf. destruct Hf as [Hnow Hrest].
  rewrite exec_forEach_cons. apply IH; [| |exact Hrest].
  - pose proof (runEvents_WF [e] st Hwf) as Hwf1. unfold runEvents in Hwf1.
    rewrite exec_forEach_cons in Hwf1. exact Hwf1.
  - destruct e as [now|now|now robotId]; cbn [handle].
    + now apply createNewMissions_unshared.
    + apply (Narrows_unshared (robots st)); [apply updateRobotStates_narrows|exact HU].
    + rewrite exec_bind. cbn [exec ret snd].
      apply (Narrows_unshared (robots st)); [apply cancelRobotMission_narrows|exact HU].
Qed.

Lemma filter_all_false {A} (p : A -> bool) (l : list A) :
  (forall x, In x l -> p x = false) -> filter p l = [].
Proof.
  induction l as [|y l IH]; cbn; intros H; [reflexivity|].
  rewrite (H y (or_introl eq_refl)). apply IH. intros x Hx. apply H. now right.
Qed.

Lemma unshared_sole_holder st rid r mid :
  WF st -> Unshared (robots st) ->
  store_get rid (robots st) = Some r -> currentMissionId r = Some mid ->
  holders mid st = [r].
Proof.
  intros Hwf HU Hget Hc. destruct Hwf as [[Hnd Hid] _].
  pose proof (store_get_in _ _ _ Hget) as Hin. apply in_split in Hin.
  destruct Hin as [s1 [s2 Hs]].
  assert (Hother : forall k x, In (k, x) (robots st) -> holds mid x = true -> k = rid).
  { intros k x Hx Hh. apply holds_spec in Hh.
    apply (HU k rid x r mid); auto. now apply store_in_get. }
  unfold store_keys in Hnd. rewrite Hs, map_app in Hnd. cbn [map fst] in Hnd.
  apply NoDup_remove_2 in Hnd.
  unfold holders, store_values. rewrite Hs, map_app, filter_app. cbn [map filter snd].
  rewrite (proj2 (holds_spec mid r) Hc).
  rewrite !filter_all_false; [reflexivity| |].
  - intros x Hx. destruct (holds mid x) eqn:Eh; [|reflexivity].
    apply in_map_iff in Hx. destruct Hx as [[k x'] [Ex Hx]]. cbn in Ex. subst x'.
    exfalso. apply Hnd. apply in_or_app. right.
    rewrite <- (Hother k x); [apply (in_map fst _ _ Hx)|rewrite Hs|exact Eh].
    apply in_or_app. right. now right.
  - intros x Hx. destruct (holds mid x) eqn:Eh; [|reflexivity].
    apply in_map_iff in Hx. destruct Hx as [[k x'] [Ex Hx]]. cbn in Ex. subst x'.
    exfalso. apply Hnd. apply in_or_app. left.
    rewrite <- (Hother k x); [apply (in_map fst _ _ Hx)|rewrite Hs|exact Eh].
    apply in_or_app. now left.
Qed.

(** On a fresh run from the initial fleet, a robot that holds a mission id
    is its only holder, and the state is well formed. *)
Lemma fresh_run_sole_holder (t0 : Z) (evs : list Event) (rid : string) (r : Robot)
  (mid : string) :
  freshRun evs (initialFleet t0) = true ->
  store_get rid (robots (exec (runEvents evs) (initialFleet t0))) = Some r ->
  currentMissionId r = Some mid ->
  wf (exec (runEvents evs) (initialFleet t0)) = true
  /\ holders mid (exec (runEvents evs) (initialFleet t0)) = [r].
Proof.
  intros Hf Hget Hc.
  assert (Hwf : WF (exec (runEvents evs) (initialFleet t0)))
    by apply runEvents_WF, initialFleet_WF.
  split; [now apply wf_spec|].
  apply (unshared_sole_holder _ rid); auto.
  apply freshRun_unshared; [apply initialFleet_WF| |exact Hf].
  intros k1 k2 r1 r2 mid' H1 _ Hc1 _.
  destruct (initialFleet_idle t0) as [_ [_ Hall]].
  apply store_get_value in H1. destruct (Hall r1 H1). congruence.
Qed.

(** ** The theorems at sample states *)

Lemma robot_binding_invariant_witness :
  store_get "robot-2" (robots (exec (runEvents sampleRun) (initialFleet 1000)))
  = Some sampleRobot2
  /\ (status sampleRobot2 = RobotStatus.idle <-> currentMissionId sampleRobot2 = None)
  /\ length (referencedMissions (exec (runEvents sampleRun) (initialFleet 1000))
               sampleRobot2) <= 1.
Proof.
  split; [vm_compute; reflexivity|].
  apply (robot_binding_invariant 1000 sampleRun "robot-2" sampleRobot2).
  vm_compute; reflexivity.
Defined.

Lemma stage_order_witness :
  store_get "mission-1000-0" (missions startState) = Some sampleMission
  /\ currentStage sampleMission <> Stage.cancelled
  /\ exists n,
       compress (stageTrace [31000; 41000; 181000; 241000; 246000; 251000]%Z
                   "mission-1000-0" startState)
       = map Some (firstn (S n) (stagesFrom (currentStage sampleMission))).
Proof.
  split; [vm_compute; reflexivity|]. split; [discriminate|].
  apply (stage_order [31000; 41000; 181000; 241000; 246000; 251000]%Z startState
           "mission-1000-0" sampleMission);
    [vm_compute; reflexivity|discriminate].
Defined.

Lemma cancelled_is_absorbing_witness :
  wf startState = true
  /\ store_get "robot-1" (robots startState) = Some sampleRobot1
  /\ store_get "mission-1000-0" (missions startState) = Some sampleMission
  /\ store_get "mission-1000-0"
       (missions (exec (runTicks [31000; 41000]%Z)
                    (exec (cancelRobotMission 5000 "robot-1") startState)))
     = Some (mkMission "mission-1000-0" (Some "robot-1"%string) 1000
               Stage.cancelled 1000)
  /\ store_get "robot-1"
       (robots (exec (runTicks [31000; 41000]%Z)
                  (exec (cancelRobotMission 5000 "robot-1") startState)))
     = Some (mkRobot "robot-1" RobotStatus.idle None 5000).
Proof.
  split; [vm_compute; reflexivity|].
  split; [vm_compute; reflexivity|].
  split; [vm_compute; reflexivity|].
  apply (proj2 cancelled_is_absorbing 5000%Z "robot-1"%string [31000; 41000]%Z
           startState sampleRobot1 "mission-1000-0"%string sampleMission);
    vm_compute; reflexivity.
Defined.

Lemma cancelRobotMission_contract_witness :
  wf startState = true
  /\ (eval (cancelRobotMission 5000 "robot-3") startState = false ->
      exec (cancelRobotMission 5000 "robot-3") startState = startState).
Proof.
  split; [vm_compute; reflexivity|].
  apply (cancelRobotMission_contract 5000 "robot-3" startState).
  vm_compute; reflexivity.
Defined.


Lemma createNewMissions_batch_witness :
  wf (initialFleet 1000) = true
  /\ NoDup (map (missionIdOf 1000)
              (seq 0 (Nat.min 2 (length (eval getIdleRobots (initialFleet 1000)))))).
Proof.
  split; [vm_compute; reflexivity|].
  apply (createNewMissions_batch 1000 (initialFleet 1000)).
  vm_compute; reflexivity.
Defined.

Lemma bounded_overshoot_witness :
  wf startState = true
  /\ store_get "robot-1" (robots startState) = Some sampleRobot1
  /\ store_get "mission-1000-0" (missions startState) = Some sampleMission
  /\ exists k : nat,
       let leaving := (1000 + Z.of_nat (S k) * 10000)%Z in
       (forall j, j <= k ->
          store_get "mission-1000-0" (missions (ticks 10000 1000 j startState))
          = Some sampleMission
          /\ store_get "robot-1" (robots (ticks 10000 1000 j startState))
             = Some sampleRobot1)
       /\ store_get "mission-1000-0" (missions (ticks 10000 1000 (S k) startState))
          = Some (mkMission "mission-1000-0" (Some "robot-1"%string) 1000
                    Stage.travel leaving)
       /\ (1000 * 30 <= leaving - 1000 < 1000 * 30 + 10000)%Z.
Proof.
  split; [vm_compute; reflexivity|].
  split; [vm_compute; reflexivity|].
  split; [vm_compute; reflexivity|].
  apply (bounded_overshoot 10000 1000 startState "robot-1" sampleRobot1
           "mission-1000-0" sampleMission (mkStageInfo 30 RobotStatus.assigned));
    try (vm_compute; reflexivity); lia.
Defined.


Lemma cancelRobotMission_dangling_witness :
  store_get "robot-1" (robots danglingState)
  = Some (mkRobot "robot-1" RobotStatus.assigned (Some "mission-7-0"%string) 7)
  /\ store_get "mission-7-0" (missions danglingState) = None
  /\ eval (cancelRobotMission 9 "robot-1") danglingState = true
  /\ missions (exec (cancelRobotMission 9 "robot-1") danglingState)
     = missions danglingState.
Proof.
  split; [reflexivity|]. split; [reflexivity|].
  pose proof (cancelRobotMission_dangling 9 "robot-1" "mission-7-0"
                (mkRobot "robot-1" RobotStatus.assigned (Some "mission-7-0"%string) 7)
                danglingState eq_refl eq_refl) as H.
  cbn zeta in H. destruct H as [H1 [_ [H3 _]]]; [discriminate|].
  split; [exact H1|]. apply H3. reflexivity.
Defined.

(** * Further properties of the server *)

(** ** Fleet initialisation *)

Lemma store_set_new_last {V} (k : string) (v : V) (s : store V) :
  ~ In k (store_keys s) -> store_set k v s = s ++ [(k, v)].
Proof.
  induction s as [|[k' v'] s IH]; cbn; intros Hnot; [reflexivity|].
  destruct (String.eqb k k') eqn:E.
  - apply String.eqb_eq in E. exfalso. apply Hnot. now left.
  - rewrite IH; [reflexivity|]. intros H. apply Hnot. now right.
Qed.

Lemma initialise_loop now (ids : list nat) : forall st,
  NoDup (store_keys (robots st) ++ map robotIdOf ids) ->
  robots (exec (forEach ids (fun i =>
            setRobot (robotIdOf i) (mkRobot (robotIdOf i) RobotStatus.idle None now))) st)
  = robots st
    ++ map (fun i => (robotIdOf i, mkRobot (robotIdOf i) RobotStatus.idle None now)) ids
  /\ missions (exec (forEach ids (fun i =>
            setRobot (robotIdOf i) (mkRobot (robotIdOf i) RobotStatus.idle None now))) st)
     = missions st.
Proof.
  induction ids as [|i ids IH]; intros st Hnd.
  - cbn. now rewrite app_nil_r.
  - rewrite exec_forEach_cons. cbn [map] in Hnd.
    assert (Hnew : ~ In (robotIdOf i) (store_keys (robots st))).
    { apply NoDup_remove_2 in Hnd. intros H. apply Hnd. apply in_or_app. now left. }
    destruct (IH (exec (setRobot (robotIdOf i)
                          (mkRobot (robotIdOf i) RobotStatus.idle None now)) st))
      as [HR HM].
    + unfold exec, setRobot. cbn [snd robots]. rewrite (store_set_new_last _ _ _ Hnew).
      unfold store_keys. rewrite map_app. cbn [map fst].
      rewrite <- app_assoc. exact Hnd.
    + split.
      * rewrite HR. unfold exec, setRobot. cbn [snd robots map].
        rewrite (store_set_new_last _ _ _ Hnew), <- app_assoc. reflexivity.
      * rewrite HM. reflexivity.
Qed.

Lemma robotIds_distinct : NoDup (map robotIdOf (seq 1 fleetSize)).
Proof. apply nodupb_spec. vm_compute. reflexivity. Qed.

(** X1.  Whatever the registry held, after [initializeRobots] it holds
    exactly the robots [robot-1] ... [robot-100], in that order, each idle
    with a null mission id and [lastUpdated = now]; the mission store is not
    touched. *)
Theorem initializeRobots_resets (now : Z) (st : State) :
  robots (exec (initializeRobots now) st)
  = map (fun i => (robotIdOf i, mkRobot (robotIdOf i) RobotStatus.idle None now))
      (seq 1 100)
  /\ missions (exec (initializeRobots now) st) = missions st.
Proof.
  unfold initializeRobots. rewrite exec_bind.
  destruct (initialise_loop now (seq 1 fleetSize) (exec (putRobots []) st)) as [HR HM].
  - cbn [exec putRobots snd robots store_keys map app]. apply robotIds_distinct.
  - split; [rewrite HR|rewrite HM]; reflexivity.
Qed.

(** ** What no handler does *)

Lemma advanceRobot_robot_keys now r st :
  store_keys (robots (exec (advanceRobot now r) st)) = store_keys (robots st).
Proof.
  rewrite advanceRobot_exec.
  destruct (heldMission r (missions st)) as [[mid m]|]; [|reflexivity].
  cbn [robots]. destruct (robotUpdateFor now m); [apply applyUpdate_keys|reflexivity].
Qed.

Lemma handle_robot_keys e st :
  store_keys (robots (exec (handle e) st)) = store_keys (robots st).
Proof.
  destruct e as [now|now|now robotId]; cbn [handle].
  - rewrite createNewMissions_exec.
    destruct (eval getIdleRobots st) as [|a [|b l]]; unfold assignStep; cbn [robots];
      now rewrite ?applyUpdate_keys.
  - rewrite updateRobotStates_exec. generalize (store_values (robots st)) as rs.
    intros rs. revert st. induction rs as [|r rs IH]; intros st; [reflexivity|].
    now rewrite exec_forEach_cons, IH, advanceRobot_robot_keys.
  - rewrite exec_bind. cbn [exec ret snd]. fold (exec (cancelRobotMission now robotId) st).
    unfold exec.
    destruct (store_get robotId (robots st)) as [robot|] eqn:Hget;
      [|now rewrite cancelRobotMission_unknown].
    destruct (truthy (currentMissionId robot)) eqn:Ht;
      [|now rewrite (cancelRobotMission_falsy now robotId robot)].
    apply truthy_some in Ht. destruct Ht as [mid [Hc Hne]].
    rewrite (cancelRobotMission_held now robotId robot mid st Hget Hc Hne).
    cbn [snd robots]. apply store_keys_set_present. congruence.
Qed.

(** X2.  No handler adds, removes or reorders a robot: from any well-formed
    state, after any sequence of creation ticks, advancement ticks and
    cancellations the state is well-formed again and the registry has the
    keys it had, in the same order. *)
Theorem registry_keys_fixed (evs : list Event) (st : State) :
  wf st = true ->
  wf (exec (runEvents evs) st) = true
  /\ store_keys (robots (exec (runEvents evs) st)) = store_keys (robots st).
Proof.
  intros Hwf. apply wf_spec in Hwf. split.
  - apply wf_spec. now apply runEvents_WF.
  - clear Hwf. unfold runEvents. revert st.
    induction evs as [|e evs IH]; intros st; [reflexivity|].
    now rewrite exec_forEach_cons, IH, handle_robot_keys.
Qed.

(** X3.  After start-up and any sequence of handler calls, [getAllRobots]
    (the body of [GET /api/robots]) lists the hundred robots [robot-1] ...
    [robot-100], each once and in that order. *)
Theorem fleet_roster (t0 : Z) (evs : list Event) :
  map robot_id (eval getAllRobots (exec (runEvents evs) (initialFleet t0)))
  = map robotIdOf (seq 1 100).
Proof.
  assert (Hwf : WF (exec (runEvents evs) (initialFleet t0)))
    by apply runEvents_WF, initialFleet_WF.
  change (eval getAllRobots (exec (runEvents evs) (initialFleet t0)))
    with (store_values (robots (exec (runEvents evs) (initialFleet t0)))).
  rewrite (Keyed_ids robot_id) by apply Hwf.
  assert (HK : forall evs' st,
            store_keys (robots (exec (forEach evs' handle) st)) = store_keys (robots st)).
  { induction evs' as [|e evs' IH]; intros st; [reflexivity|].
    now rewrite exec_forEach_cons, IH, handle_robot_keys. }
  unfold runEvents. rewrite HK. unfold initialFleet, initializeRobots.
  rewrite exec_bind.
  destruct (initialise_loop t0 (seq 1 fleetSize) (exec (putRobots []) emptyState))
    as [HR _].
  - cbn [exec putRobots snd robots store_keys map app]. apply robotIds_distinct.
  - rewrite HR. cbn [exec putRobots snd robots app].
    unfold store_keys. rewrite map_map. reflexivity.
Qed.

Lemma store_keys_set_extends {V} (k : string) (v : V) (s : store V) :
  exists added, store_keys (store_set k v s) = store_keys s ++ added.
Proof.
  destruct (store_get k s) eqn:E.
  - exists []. rewrite app_nil_r. apply store_keys_set_present. congruence.
  - exists [k]. now apply store_keys_set_absent.
Qed.

Lemma tick_mission_keys now rs st :
  store_keys (missions (exec (forEach rs (advanceRobot now)) st))
  = store_keys (missions st).
Proof.
  revert st. induction rs as [|r rs IH]; intros st; [reflexivity|].
  rewrite exec_forEach_cons, IH, advanceRobot_exec.
  destruct (heldMission r (missions st)) as [[mid m]|] eqn:Eh; [|reflexivity].
  apply heldMission_some in Eh. destruct Eh as [_ [_ Hm]].
  cbn [missions]. apply store_keys_set_present. congruence.
Qed.

Lemma cancel_exec_cases now robotId st :
  exec (cancelRobotMission now robotId) st = st
  \/ exists robot mid,
       store_get robotId (robots st) = Some robot
       /\ currentMissionId robot = Some mid
       /\ mid <> EmptyString
       /\ exec (cancelRobotMission now robotId) st
          = mkState
              (store_set robotId (mergeRobot robot idleUpdate now) (robots st))
              (match store_get mid (missions st) with
               | Some m => store_set mid (cancelMission m) (missions st)
               | None => missions st
               end).
Proof.
  unfold exec.
  destruct (store_get robotId (robots st)) as [robot|] eqn:Hget;
    [|left; now rewrite cancelRobotMission_unknown].
  destruct (truthy (currentMissionId robot)) eqn:Ht;
    [|left; now rewrite (cancelRobotMission_falsy now robotId robot)].
  apply truthy_some in Ht. destruct Ht as [mid [Hc Hne]].
  right. exists robot, mid.
  now rewrite (cancelRobotMission_held now robotId robot mid st Hget Hc Hne).
Qed.

Lemma handle_mission_keys e st :
  exists added,
    store_keys (missions (exec (handle e) st)) = store_keys (missions st) ++ added
    /\ (isCreate e = false -> added = []).
Proof.
  destruct e as [now|now|now robotId]; cbn [handle isCreate].
  - rewrite createNewMissions_exec.
    destruct (eval getIdleRobots st) as [|a [|b l]]; unfold assignStep; cbn [missions].
    + exists []. now rewrite app_nil_r.
    + destruct (store_keys_set_extends (missionIdOf now 0) (newMission now 0 a)
                  (missions st)) as [x Hx].
      exists x. split; [exact Hx|discriminate].
    + destruct (store_keys_set_extends (missionIdOf now 0) (newMission now 0 a)
                  (missions st)) as [x Hx].
      destruct (store_keys_set_extends (missionIdOf now 1) (newMission now 1 b)
                  (store_set (missionIdOf now 0) (newMission now 0 a) (missions st)))
        as [y Hy].
      exists (x ++ y). split; [|discriminate]. now rewrite Hy, Hx, app_assoc.
  - exists []. rewrite app_nil_r. split; [|reflexivity].
    rewrite updateRobotStates_exec. apply tick_mission_keys.
  - exists []. rewrite app_nil_r. split; [|reflexivity].
    rewrite exec_bind. cbn [exec ret snd]. fold (exec (cancelRobotMission now robotId) st).
    destruct (cancel_exec_cases now robotId st) as [->|[robot [mid [_ [_ [_ ->]]]]]];
      [reflexivity|].
    cbn [missions]. destruct (store_get mid (missions st)) eqn:Em; [|reflexivity].
    apply store_keys_set_present. congruence.
Qed.

(** X4.  No handler deletes or moves a mission: after any sequence of
    handler calls the keys of the mission store are the earlier keys, in
    their order, followed by the keys added since; a sequence without a
    creation tick adds none. *)
Theorem missions_never_deleted (evs : list Event) (st : State) :
  exists added,
    store_keys (missions (exec (runEvents evs) st)) = store_keys (missions st) ++ added
    /\ (forallb (fun e => negb (isCreate e)) evs = true -> added = []).
Proof.
  unfold runEvents. revert st. induction evs as [|e evs IH]; intros st.
  - exists []. cbn. now rewrite app_nil_r.
  - rewrite exec_forEach_cons.
    destruct (handle_mission_keys e st) as [x [Hx Hx0]].
    destruct (IH (exec (handle e) st)) as [y [Hy Hy0]].
    exists (x ++ y). split.
    + now rewrite Hy, Hx, app_assoc.
    + cbn [forallb]. rewrite andb_true_iff, negb_true_iff. intros [He Hevs].
      now rewrite (Hx0 He), (Hy0 Hevs).
Qed.

Lemma advanceMission_identity now m :
  mission_id (advanceMission now m) = mission_id m
  /\ assignedRobotId (advanceMission now m) = assignedRobotId m
  /\ createdAt (advanceMission now m) = createdAt m.
Proof.
  unfold advanceMission. destruct (Stage.eqb _ _); [auto|].
  destruct (due now m); [|auto].
  destruct (nextStageOf (currentStage m)); cbn; auto.
Qed.

Lemma freshIds_spec now st :
  freshIds now st = true ->
  store_get (missionIdOf now 0) (missions st) = None
  /\ store_get (missionIdOf now 1) (missions st) = None.
Proof.
  unfold freshIds. cbn [seq forallb]. rewrite !andb_true_iff, !negb_true_iff.
  intros [H0 [H1 _]].
  destruct (store_get (missionIdOf now 0) (missions st));
    destruct (store_get (missionIdOf now 1) (missions st)); try discriminate; auto.
Qed.

Lemma handle_mission_identity e st k m :
  match e with Create now => freshIds now st | _ => true end = true ->
  store_get k (missions st) = Some m ->
  exists m',
    store_get k (missions (exec (handle e) st)) = Some m'
    /\ mission_id m' = mission_id m
    /\ assignedRobotId m' = assignedRobotId m
    /\ createdAt m' = createdAt m.
Proof.
  intros Hfresh Hm. destruct e as [now|now|now robotId]; cbn [handle].
  - apply freshIds_spec in Hfresh. destruct Hfresh as [F0 F1].
    assert (K0 : k <> missionIdOf now 0) by congruence.
    assert (K1 : k <> missionIdOf now 1) by congruence.
    exists m. rewrite createNewMissions_exec.
    destruct (eval getIdleRobots st) as [|a [|b l]]; unfold assignStep; cbn [missions];
      rewrite ?store_get_set_other by assumption; auto.
  - rewrite tick_mission_get, Hm. cbn [option_map]. eexists. split; [reflexivity|].
    destruct (heldBy k _); [apply advanceMission_identity|auto].
  - rewrite exec_bind. cbn [exec ret snd]. fold (exec (cancelRobotMission now robotId) st).
    destruct (cancel_exec_cases now robotId st) as [->|[robot [mid [_ [_ [_ ->]]]]]];
      [exists m; auto|].
    cbn [missions]. destruct (store_get mid (missions st)) as [m0|] eqn:Em;
      [|exists m; auto].
    destruct (string_dec k mid) as [->|Hne].
    + rewrite store_get_set_same. rewrite Hm in Em. injection Em as <-.
      eexists. split; [reflexivity|]. cbn. auto.
    + rewrite store_get_set_other by exact Hne. exists m. auto.
Qed.

(** X5.  On a run whose creation ticks draw unused ids (in particular on
    any run of advancement ticks and cancellations), a stored mission keeps
    its [id], [assignedRobotId] and [createdAt]: the handlers write only
    [currentStage] and [stageStartTime]. *)
Theorem mission_identity_kept (evs : list Event) (st : State) (k : string) (m : Mission) :
  freshRun evs st = true ->
  store_get k (missions st) = Some m ->
  exists m',
    store_get k (missions (exec (runEvents evs) st)) = Some m'
    /\ mission_id m' = mission_id m
    /\ assignedRobotId m' = assignedRobotId m
    /\ createdAt m' = createdAt m.
Proof.
  unfold runEvents. revert st m. induction evs as [|e evs IH]; intros st m Hf Hm.
  - exists m. auto.
  - cbn [freshRun] in Hf. apply andb_true_iff in Hf. destruct Hf as [He Hevs].
    rewrite exec_forEach_cons.
    destruct (handle_mission_identity e st k m He Hm) as [m1 [Hm1 [I1 [I2 I3]]]].
    destruct (IH _ m1 Hevs Hm1) as [m2 [Hm2 [J1 [J2 J3]]]].
    exists m2. repeat split; congruence.
Qed.

Lemma Stamped_refl now rs : Stamped now rs rs.
Proof. intros k r' H. now left. Qed.

Lemma Stamped_trans now rs1 rs2 rs3 :
  Stamped now rs1 rs2 -> Stamped now rs2 rs3 -> Stamped now rs1 rs3.
Proof.
  intros H12 H23 k r3 H3. destruct (H23 k r3 H3) as [H2|[Hs H2]].
  - exact (H12 k r3 H2).
  - right. split; [exact Hs|].
    destruct (store_get k rs2) as [r2|] eqn:E2; [|congruence].
    destruct (H12 k r2 E2) as [H1|[_ H1]]; congruence.
Qed.

Lemma applyUpdate_stamped now id u rs : Stamped now rs (applyUpdate now id u rs).
Proof.
  intros k r'. rewrite applyUpdate_get. destruct (String.eqb k id) eqn:E.
  - apply String.eqb_eq in E. subst k.
    destruct (store_get id rs) as [r|]; [|discriminate].
    cbn. intros [= <-]. right. split; [reflexivity|discriminate].
  - now left.
Qed.

Lemma advanceRobot_stamped now r st :
  Stamped now (robots st) (robots (exec (advanceRobot now r) st)).
Proof.
  rewrite advanceRobot_exec.
  destruct (heldMission r (missions st)) as [[mid m]|]; [|apply Stamped_refl].
  cbn [robots]. destruct (robotUpdateFor now m);
    [apply applyUpdate_stamped|apply Stamped_refl].
Qed.


(** X7.  An advancement tick never binds a robot.  In a well-formed state
    each robot record comes out of a tick in one of three ways: unchanged;
    released (idle, null mission id, stamped); or with its mission id kept
    and a new non-idle status, stamped.  A robot without a mission always
    comes out unchanged. *)
Theorem tick_never_binds (now : Z) (st : State) (k : string) (r : Robot) :
  wf st = true ->
  store_get k (robots st) = Some r ->
  let after := store_get k (robots (exec (updateRobotStates now) st)) in
  (after = Some r
   \/ after = Some (mkRobot (robot_id r) RobotStatus.idle None now)
   \/ exists s,
        s <> RobotStatus.idle /\ currentMissionId r <> None
        /\ after = Some (mkRobot (robot_id r) s (currentMissionId r) now))
  /\ (currentMissionId r = None -> after = Some r).
Proof.
  intros Hwf Hget. apply wf_spec in Hwf. cbn zeta.
  destruct (tick_robot_get now st k r (proj1 Hwf) Hget) as [l1 [l2 [_ ->]]].
  unfold ownUpdate. split.
  - destruct (heldMission r _) as [[mid m]|] eqn:Eh; [|now left].
    apply heldMission_some in Eh. destruct Eh as [Hc _].
    destruct (robotUpdateFor now m) as [u|] eqn:Eu; [|now left].
    apply robotUpdateFor_shape in Eu. destruct Eu as [->|[s [Hs ->]]].
    + right. left. reflexivity.
    + right. right. exists s. split; [exact Hs|]. split; [congruence|reflexivity].
  - intros Hc. unfold heldMission. now rewrite Hc.
Qed.

(** X8.  [cancelRobotMission] writes one robot and at most one mission:
    every registry entry under another key is unchanged, and so is every
    mission other than the one the named robot held; this holds in any
    state and whatever the call returns. *)
Theorem cancel_touches_one_robot (now : Z) (robotId : string) (st : State) :
  let st' := exec (cancelRobotMission now robotId) st in
  (forall k, k <> robotId -> store_get k (robots st') = store_get k (robots st))
  /\ (forall k,
        (forall robot, store_get robotId (robots st) = Some robot ->
                       currentMissionId robot <> Some k) ->
        store_get k (missions st') = store_get k (missions st)).
Proof.
  cbn zeta.
  destruct (cancel_exec_cases now robotId st) as [->|[robot [mid [Hg [Hc [_ ->]]]]]];
    [split; reflexivity|].
  cbn [robots missions]. split.
  - intros k Hk. now apply store_get_set_other.
  - intros k Hk. destruct (store_get mid (missions st)); [|reflexivity].
    apply store_get_set_other. intros ->. exact (Hk robot Hg Hc).
Qed.

(** ** Statistics along a run *)

Lemma filter_three_way {A} (p q r : A -> bool) (l : list A) :
  (forall x, (if p x then 1 else 0) + (if q x then 1 else 0) + (if r x then 1 else 0) = 1) ->
  length (filter p l) + length (filter q l) + length (filter r l) = length l.
Proof.
  intros H. induction l as [|x l IH]; [reflexivity|].
  cbn [filter]. specialize (H x).
  destruct (p x), (q x), (r x); cbn [length] in *; lia.
Qed.

(** X9.  The numbers of the statistics add up: every mission is counted in
    exactly one of [activeMissions], [completedMissions] and
    [cancelledMissions], so their sum is [totalMissions]; and [idleRobots]
    never exceeds [totalRobots]. *)
Theorem stats_add_up (st : State) :
  let s := eval statsHandler st in
  activeMissions s + completedMissions s + cancelledMissions s = totalMissions s
  /\ idleRobots s <= totalRobots s.
Proof.
  cbn zeta. unfold statsHandler, eval, bind, getMissions, getRobots, getIdleRobots,
    getAllRobots, ret, store_keys, store_values. cbn. split.
  - rewrite length_map, <- (length_map snd (missions st)).
    apply filter_three_way. intros m. now destruct (currentStage m).
  - rewrite length_map, <- (length_map snd (robots st)). apply filter_length_le.
Qed.

(** Replacing the record under a present key moves one unit between the
    classes a predicate induces. *)
Lemma filter_set_count {V} (p : V -> bool) (k : string) (v v0 : V) (s : store V) :
  store_get k s = Some v0 ->
  length (filter p (store_values (store_set k v s))) + (if p v0 then 1 else 0)
  = length (filter p (store_values s)) + (if p v then 1 else 0).
Proof.
  unfold store_values. induction s as [|[k' v'] s IH]; cbn [store_get store_set];
    [discriminate|].
  destruct (String.eqb k k') eqn:E.
  - intros [= ->]. cbn [map filter snd]. destruct (p v), (p v0); cbn [length]; lia.
  - intros H. specialize (IH H). cbn [map filter snd].
    destruct (p v'); cbn [length]; lia.
Qed.

Lemma filter_new_count {V} (p : V -> bool) (k : string) (v : V) (s : store V) :
  store_get k s = None ->
  length (filter p (store_values (store_set k v s)))
  = length (filter p (store_values s)) + (if p v then 1 else 0).
Proof.
  intros H. apply store_get_none in H. rewrite (store_set_new_last _ _ _ H).
  unfold store_values. rewrite map_app, filter_app, length_app. cbn [map filter snd].
  now destruct (p v).
Qed.

Lemma stats_fields st :
  eval statsHandler st
  = mkStats
      (length (robots st))
      (length (filter (fun robot => RobotStatus.eqb (status robot) RobotStatus.idle)
                 (store_values (robots st))))
      (length (missions st))
      (length (filter (fun m =>
                 negb (Stage.eqb (currentStage m) Stage.completed)
                 && negb (Stage.eqb (currentStage m) Stage.cancelled))
                 (store_values (missions st))))
      (length (filter (fun m => Stage.eqb (currentStage m) Stage.completed)
                 (store_values (missions st))))
      (length (filter (fun m => Stage.eqb (currentStage m) Stage.cancelled)
                 (store_values (missions st)))).
Proof.
  unfold statsHandler, eval, bind, getMissions, getRobots, getIdleRobots,
    getAllRobots, ret, store_keys. cbn. now rewrite !length_map.
Qed.

Lemma store_set_length_same {V} (k : string) (v : V) (s : store V) :
  store_get k s <> None -> length (store_set k v s) = length s.
Proof.
  intros H. rewrite <- (length_map fst (store_set k v s)), <- (length_map fst s).
  change (length (store_keys (store_set k v s)) = length (store_keys s)).
  now rewrite store_keys_set_present.
Qed.

(** X10.  What a successful cancel does to the statistics of a well-formed
    state: the totals stay, one more robot is idle, and the cancelled
    mission moves from the class it was in ([active] or, when the robot was
    still showing [completed], [completed]) to [cancelled]; a mission that
    was already cancelled moves nothing. *)
Theorem cancel_moves_counts (now : Z) (robotId : string) (st : State) :
  wf st = true ->
  eval (cancelRobotMission now robotId) st = true ->
  let s := eval statsHandler st in
  let s' := eval statsHandler (exec (cancelRobotMission now robotId) st) in
  totalRobots s' = totalRobots s
  /\ totalMissions s' = totalMissions s
  /\ idleRobots s' = idleRobots s + 1
  /\ exists robot mid m,
       store_get robotId (robots st) = Some robot
       /\ currentMissionId robot = Some mid
       /\ store_get mid (missions st) = Some m
       /\ match currentStage m with
          | Stage.cancelled =>
              activeMissions s' = activeMissions s
              /\ completedMissions s' = completedMissions s
              /\ cancelledMissions s' = cancelledMissions s
          | Stage.completed =>
              activeMissions s' = activeMissions s
              /\ completedMissions s' + 1 = completedMissions s
              /\ cancelledMissions s' = cancelledMissions s + 1
          | _ =>
              activeMissions s' + 1 = activeMissions s
              /\ completedMissions s' = completedMissions s
              /\ cancelledMissions s' = cancelledMissions s + 1
          end.
Proof.
  intros Hwf Hok. apply wf_spec in Hwf. cbn zeta.
  destruct (cancel_exec_cases now robotId st) as [Hsame|[robot [mid [Hg [Hc [Hne Hex]]]]]].
  - exfalso. unfold eval in Hok. unfold exec in Hsame.
    destruct (store_get robotId (robots st)) as [robot|] eqn:Hget;
      [|rewrite cancelRobotMission_unknown in Hok by exact Hget; discriminate].
    pose proof (WF_get_bound _ _ _ Hwf Hget) as HB. unfold Bound in HB.
    destruct (currentMissionId robot) as [mid|] eqn:Hc.
    + destruct HB as [Hs [Hne _]].
      rewrite (cancelRobotMission_held now robotId robot mid st Hget Hc Hne) in Hsame.
      cbn [snd] in Hsame. apply (f_equal robots) in Hsame. cbn [robots] in Hsame.
      pose proof (store_get_set_same robotId (mergeRobot robot idleUpdate now)
                    (robots st)) as Hnew.
      rewrite Hsame, Hget in Hnew. injection Hnew as Hnew.
      apply Hs. rewrite Hnew. reflexivity.
    + rewrite (cancelRobotMission_falsy now robotId robot) in Hok;
        [discriminate|exact Hget|now rewrite Hc].
  - pose proof (WF_get_bound _ _ _ Hwf Hg) as HB. unfold Bound in HB.
    rewrite Hc in HB. destruct HB as [Hs [_ Hm]].
    destruct (store_get mid (missions st)) as [m|] eqn:Em; [|congruence].
    rewrite Hex, !stats_fields. cbn [robots missions totalRobots idleRobots
      totalMissions activeMissions completedMissions cancelledMissions].
    rewrite !store_set_length_same by congruence.
    split; [reflexivity|]. split; [reflexivity|]. split.
    + pose proof (filter_set_count
                    (fun robot => RobotStatus.eqb (status robot) RobotStatus.idle)
                    robotId (mergeRobot robot idleUpdate now) robot (robots st) Hg) as H.
      cbn in H. destruct (RobotStatus.eqb (status robot) RobotStatus.idle) eqn:E;
        [apply status_eqb_eq in E; contradiction|lia].
    + exists robot, mid, m. split; [exact Hg|]. split; [exact Hc|]. split; [exact Em|].
      pose proof (filter_set_count
                    (fun m => negb (Stage.eqb (currentStage m) Stage.completed)
                              && negb (Stage.eqb (currentStage m) Stage.cancelled))
                    mid (cancelMission m) m (missions st) Em) as Ha.
      pose proof (filter_set_count
                    (fun m => Stage.eqb (currentStage m) Stage.completed)
                    mid (cancelMission m) m (missions st) Em) as Hd.
      pose proof (filter_set_count
                    (fun m => Stage.eqb (currentStage m) Stage.cancelled)
                    mid (cancelMission m) m (missions st) Em) as Hx.
      cbn in Ha, Hd, Hx. destruct (currentStage m); cbn in Ha, Hd, Hx; lia.
Qed.

Lemma store_set_length_new {V} (k : string) (v : V) (s : store V) :
  store_get k s = None -> length (store_set k v s) = length s + 1.
Proof.
  intros H. apply store_get_none in H.
  rewrite (store_set_new_last _ _ _ H), length_app. reflexivity.
Qed.

Lemma assignStep_counts now i robot st :
  store_get (robot_id robot) (robots st) = Some robot ->
  status robot = RobotStatus.idle ->
  store_get (missionIdOf now i) (missions st) = None ->
  let s := eval statsHandler st in
  1 <= idleRobots s
  /\ eval statsHandler (assignStep now i robot st)
     = mkStats (totalRobots s) (idleRobots s - 1) (totalMissions s + 1)
         (activeMissions s + 1) (completedMissions s) (cancelledMissions s).
Proof.
  intros Hg Hidle Hfresh. cbn zeta. rewrite !stats_fields. unfold assignStep.
  cbn [robots missions totalRobots idleRobots totalMissions activeMissions
    completedMissions cancelledMissions].
  unfold applyUpdate. rewrite Hg.
  rewrite (store_set_length_same (robot_id robot)) by congruence.
  rewrite (store_set_length_new (missionIdOf now i)) by exact Hfresh.
  rewrite !(filter_new_count _ (missionIdOf now i)) by exact Hfresh.
  pose proof (filter_set_count
                (fun robot => RobotStatus.eqb (status robot) RobotStatus.idle)
                (robot_id robot)
                (mergeRobot robot (assignUpdate (missionIdOf now i)) now)
                robot (robots st) Hg) as H.
  cbn beta in H. rewrite Hidle in H.
  cbn [mergeRobot status assignUpdate upd_status RobotStatus.eqb] in H.
  cbn [newMission currentStage Stage.eqb negb andb].
  split; [lia|]. f_equal; lia.
Qed.

(** X11.  What a creation tick does to the statistics of a well-formed
    state when the ids it draws are unused: with [n] the smaller of 2 and the
    number of idle robots, [totalMissions] and [activeMissions] grow by [n],
    [idleRobots] shrinks by [n], and the other numbers stay. *)
Theorem create_moves_counts (now : Z) (st : State) :
  wf st = true ->
  freshIds now st = true ->
  let s := eval statsHandler st in
  let s' := eval statsHandler (exec (createNewMissions now) st) in
  let n := Nat.min 2 (idleRobots s) in
  totalRobots s' = totalRobots s
  /\ idleRobots s' + n = idleRobots s
  /\ totalMissions s' = totalMissions s + n
  /\ activeMissions s' = activeMissions s + n
  /\ completedMissions s' = completedMissions s
  /\ cancelledMissions s' = cancelledMissions s.
Proof.
  intros Hwf Hfresh. apply wf_spec in Hwf. apply freshIds_spec in Hfresh.
  destruct Hfresh as [F0 F1]. cbn zeta.
  rewrite createNewMissions_exec.
  assert (Hidle : idleRobots (eval statsHandler st) = length (eval getIdleRobots st))
    by (rewrite stats_fields; reflexivity).
  assert (Hin : forall x, In x (eval getIdleRobots st) ->
                  store_get (robot_id x) (robots st) = Some x
                  /\ status x = RobotStatus.idle).
  { intros x Hx. rewrite getIdleRobots_eval in Hx. apply filter_In in Hx.
    destruct Hx as [Hx Hs]. split; [|now apply status_eqb_eq].
    apply (Keyed_value_get robot_id); [apply Hwf|exact Hx]. }
  assert (Hnd : NoDup (map robot_id (eval getIdleRobots st))).
  { rewrite getIdleRobots_eval. apply filter_keeps_distinct_ids, snapshot_nodup, Hwf. }
  destruct (eval getIdleRobots st) as [|a [|b l]]; cbn [length] in Hidle;
    rewrite Hidle; cbn [Nat.min].
  - repeat split; lia.
  - destruct (Hin a (or_introl eq_refl)) as [Ha Hsa].
    destruct (assignStep_counts now 0 a st Ha Hsa F0) as [H1 ->].
    cbn [totalRobots idleRobots totalMissions activeMissions
      completedMissions cancelledMissions]. repeat split; lia.
  - destruct (Hin a (or_introl eq_refl)) as [Ha Hsa].
    destruct (Hin b (or_intror (or_introl eq_refl))) as [Hb Hsb].
    assert (Hab : robot_id b <> robot_id a).
    { cbn in Hnd. inversion Hnd as [|? ? Hnotin _]; subst.
      intros E. apply Hnotin. left. exact E. }
    destruct (assignStep_counts now 0 a st Ha Hsa F0) as [H1 E1].
    destruct (assignStep_counts now 1 b (assignStep now 0 a st)) as [H2 ->].
    + unfold assignStep at 1. cbn [robots]. now rewrite applyUpdate_get_other.
    + exact Hsb.
    + unfold assignStep. cbn [missions]. rewrite store_get_set_other; [exact F1|].
      intros E. now apply (missionIdOf_0_1 now).
    + rewrite E1 in *.
      cbn [totalRobots idleRobots totalMissions activeMissions
        completedMissions cancelledMissions] in *. repeat split; lia.
Qed.

(** ** Repeating a tick *)

(** After its own advancement a mission asks for no further update at the
    same instant, unless it did not move and the update is the release. *)
Lemma update_after_advance now m :
  robotUpdateFor now (advanceMission now m) = None
  \/ (advanceMission now m = m /\ robotUpdateFor now m = Some idleUpdate).
Proof.
  unfold advanceMission, robotUpdateFor, due, nextStageOf, enterStage.
  rewrite array_next. destruct m as [mi ar ca cs ss]. cbn [currentStage stageStartTime].
  destruct cs; cbn [Stage.eqb missionStages duration]; auto;
    case_elapsed; cbn [currentStage stageStartTime Stage.eqb missionStages duration];
    rewrite ?array_next, ?Helapsed, ?Z.sub_diag; cbn; auto.
Qed.

Lemma forEach_no_op {A} (f : A -> Sim unit) (xs : list A) (st : State) :
  (forall x, In x xs -> exec (f x) st = st) -> exec (forEach xs f) st = st.
Proof.
  induction xs as [|x xs IH]; intros H; [reflexivity|].
  rewrite exec_forEach_cons, (H x (or_introl eq_refl)).
  apply IH. intros y Hy. apply H. now right.
Qed.

(** X12.  A second advancement tick at the same instant changes nothing:
    in a well-formed state, [updateRobotStates now] run twice leaves the
    state the first run produced, [lastUpdated] stamps included. *)
Theorem tick_idempotent (now : Z) (st : State) :
  wf st = true ->
  exec (updateRobotStates now) (exec (updateRobotStates now) st)
  = exec (updateRobotStates now) st.
Proof.
  intros Hwf. apply wf_spec in Hwf.
  pose proof (updateRobotStates_WF now st Hwf) as Hwf1.
  set (st1 := exec (updateRobotStates now) st) in *.
  rewrite (updateRobotStates_exec now st1). apply forEach_no_op.
  intros r1 Hr1. rewrite advanceRobot_exec.
  destruct (heldMission r1 (missions st1)) as [[mid m1]|] eqn:Eh; [|reflexivity].
  apply heldMission_some in Eh. destruct Eh as [Hc1 [Hne Hm1]].
  assert (Hg1 : store_get (robot_id r1) (robots st1) = Some r1)
    by (apply (Keyed_value_get robot_id); [apply Hwf1|exact Hr1]).
  destruct (updateRobotStates_narrows now st (robot_id r1) r1 Hg1)
    as [E|[r0 [Hg0 Hc0]]]; [congruence|].
  rewrite Hc1 in Hc0.
  pose proof (WF_get_bound _ _ _ Hwf Hg0) as HB. unfold Bound in HB.
  rewrite Hc0 in HB. destruct HB as [_ [_ Hex]].
  destruct (store_get mid (missions st)) as [m0|] eqn:Em0; [|congruence].
  assert (Hm1' : m1 = advanceMission now m0).
  { unfold st1 in Hm1. rewrite tick_mission_get, Em0 in Hm1. cbn [option_map] in Hm1.
    rewrite (heldBy_true mid _ r0) in Hm1; auto; [congruence|].
    now apply store_get_value in Hg0. }
  subst m1. rewrite advanceMission_idem.
  destruct (update_after_advance now m0) as [->|[Hfix Hu]].
  - rewrite (store_set_same_value _ _ _ Hm1). apply state_eta.
  - exfalso.
    pose proof (tick_robot_fixed_mission now st (robot_id r1) r0 mid m0
                  Hwf Hg0 Hc0 Em0 Hfix) as Hafter.
    fold st1 in Hafter. rewrite Hu, Hg1 in Hafter. injection Hafter as ->.
    discriminate.
Qed.

(** ** How long a robot stays bound *)

Lemma remaining_table :
  remainingSeconds Stage.preparation = 245%Z
  /\ remainingSeconds Stage.travel = 215%Z
  /\ remainingSeconds Stage.delivery = 65%Z
  /\ remainingSeconds Stage.completed = 5%Z.
Proof. repeat split. Qed.

(** The earliest instant at which the mission's robot can be released never
    moves backwards when the mission advances. *)
Lemma release_time_mono now m :
  currentStage m <> Stage.cancelled ->
  (stageStartTime m + 1000 * remainingSeconds (currentStage m)
   <= stageStartTime (advanceMission now m)
      + 1000 * remainingSeconds (currentStage (advanceMission now m)))%Z.
Proof.
  intros Hnc. destruct remaining_table as [Rp [Rt [Rd Rc]]].
  unfold advanceMission, due, nextStageOf, enterStage. rewrite array_next.
  destruct m as [mi ar ca cs ss]. cbn [currentStage stageStartTime] in *.
  destruct cs; try congruence; cbn [Stage.eqb missionStages duration];
    case_elapsed; cbn [currentStage stageStartTime]; try lia;
    apply Z.leb_le in Helapsed; lia.
Qed.

Lemma idle_update_only_after_completed now m :
  robotUpdateFor now m = Some idleUpdate ->
  currentStage m = Stage.completed
  /\ (stageStartTime m + 1000 * remainingSeconds Stage.completed <= now)%Z.
Proof.
  unfold robotUpdateFor, due, nextStageOf. rewrite array_next.
  destruct (currentStage m); cbn [Stage.eqb missionStages duration robotStatus];
    try discriminate; case_elapsed; unfold statusUpdate, idleUpdate;
    try discriminate.
  intros _. split; [reflexivity|]. apply Z.leb_le in Helapsed.
  change (remainingSeconds Stage.completed) with 5%Z. lia.
Qed.

Lemma runTicks_completed times st mid m :
  store_get mid (missions st) = Some m ->
  currentStage m = Stage.completed ->
  store_get mid (missions (exec (runTicks times) st)) = Some m.
Proof.
  revert st. induction times as [|t times IH]; intros st Hm Hc; [exact Hm|].
  rewrite runTicks_cons. apply IH; [|exact Hc].
  rewrite tick_mission_get, Hm. cbn [option_map].
  assert (advanceMission t m = m) as ->; [|now destruct (heldBy _ _)].
  unfold advanceMission, nextStageOf. rewrite Hc, array_next. cbn.
  now destruct (due t m).
Qed.

(** What the callback of a robot holding [mid] reads and writes in one
    tick: the mission as it was or as just advanced by another holder. *)
Lemma tick_holder_outcome now st rid r mid m :
  WF st ->
  store_get rid (robots st) = Some r ->
  currentMissionId r = Some mid ->
  store_get mid (missions st) = Some m ->
  store_get mid (missions (exec (updateRobotStates now) st))
  = Some (advanceMission now m)
  /\ exists seen,
       (seen = m \/ seen = advanceMission now m)
       /\ store_get rid (robots (exec (updateRobotStates now) st))
          = Some (match robotUpdateFor now seen with
                  | Some u => mergeRobot r u now
                  | None => r
                  end).
Proof.
  intros Hwf Hget Hc Hm.
  pose proof (WF_get_bound _ _ _ Hwf Hget) as HB. unfold Bound in HB.
  rewrite Hc in HB. destruct HB as [_ [Hne _]]. split.
  - rewrite tick_mission_get, Hm. cbn [option_map].
    rewrite (heldBy_true mid _ r); auto. now apply store_get_value in Hget.
  - destruct (tick_robot_get now st rid r (proj1 Hwf) Hget) as [l1 [l2 [_ ->]]].
    exists (if heldBy mid l1 then advanceMission now m else m).
    split; [destruct (heldBy mid l1); auto|].
    unfold ownUpdate.
    assert (Hseen : heldMission r (missions (exec (forEach l1 (advanceRobot now)) st))
                    = Some (mid, if heldBy mid l1 then advanceMission now m else m)).
    { apply heldMission_some. repeat split; auto.
      now rewrite forEach_missions_get, Hm. }
    now rewrite Hseen.
Qed.

(** X13.  Advancement ticks do not release a robot early.  If a robot of a
    well-formed state holds a mission that is not cancelled and, after some
    advancement ticks at any instants, has a null mission id, then the
    mission is [completed] and one of the ticks ran no earlier than the
    mission's [stageStartTime] plus the durations of its current and all
    later stages (245 s from the start of [preparation]). *)
Theorem robot_not_released_early (times : list Z) (st : State) (rid : string)
  (r : Robot) (mid : string) (m : Mission) (r' : Robot) :
  wf st = true ->
  store_get rid (robots st) = Some r ->
  currentMissionId r = Some mid ->
  store_get mid (missions st) = Some m ->
  currentStage m <> Stage.cancelled ->
  store_get rid (robots (exec (runTicks times) st)) = Some r' ->
  currentMissionId r' = None ->
  (exists t,
     In t times
     /\ (stageStartTime m + 1000 * remainingSeconds (currentStage m) <= t)%Z)
  /\ exists m',
       store_get mid (missions (exec (runTicks times) st)) = Some m'
       /\ currentStage m' = Stage.completed.
Proof.
  intros Hwf. apply wf_spec in Hwf. revert st r m Hwf.
  induction times as [|t times IH]; intros st r m Hwf Hget Hc Hm Hnc Hget' Hc'.
  - cbn in Hget'. congruence.
  - rewrite runTicks_cons in *.
    destruct (tick_holder_outcome t st rid r mid m Hwf Hget Hc Hm)
      as [Hm1 [seen [Hseen Hr1]]].
    pose proof (updateRobotStates_WF t st Hwf) as Hwf1.
    destruct (robotUpdateFor t seen) as [u|] eqn:Eu.
    + pose proof Eu as Eshape. apply robotUpdateFor_shape in Eshape.
      destruct Eshape as [->|[s [Hs ->]]].
      * assert (Hidle : robotUpdateFor t m = Some idleUpdate
                        /\ advanceMission t m = m).
        { destruct (update_after_advance t m) as [Hn|[Hfix Hu]].
          - destruct Hseen as [->| ->]; [|congruence].
            apply idle_update_only_after_completed in Eu as Hcompl.
            split; [exact Eu|]. unfold advanceMission, nextStageOf.
            rewrite (proj1 Hcompl), array_next. cbn. now destruct (due t m).
          - now split. }
        destruct Hidle as [Hu Hfix].
        destruct (idle_update_only_after_completed t m Hu) as [Hcompl Htime].
        rewrite Hfix in Hm1. split.
        -- exists t. split; [now left|]. now rewrite Hcompl.
        -- exists m. split; [|exact Hcompl]. now apply runTicks_completed.
      * destruct (IH _ _ (advanceMission t m) Hwf1 Hr1) as [[t' [Hin Ht']] Hfinal];
          auto.
        -- destruct (advanceMission_stage t m Hnc) as [->|[Hn _]]; [exact Hnc|].
           unfold nextStageOf in Hn. rewrite array_next in Hn.
           destruct (currentStage m); try congruence; injection Hn as <-; discriminate.
        -- split; [|exact Hfinal]. exists t'. split; [now right|].
           pose proof (release_time_mono t m Hnc). lia.
    + destruct (IH _ _ (advanceMission t m) Hwf1 Hr1) as [[t' [Hin Ht']] Hfinal];
        auto.
      * destruct (advanceMission_stage t m Hnc) as [->|[Hn _]]; [exact Hnc|].
        unfold nextStageOf in Hn. rewrite array_next in Hn.
        destruct (currentStage m); try congruence; injection Hn as <-; discriminate.
      * split; [|exact Hfinal]. exists t'. split; [now right|].
        pose proof (release_time_mono t m Hnc). lia.
Qed.

Lemma ticks_add T t0 a b st :
  ticks T t0 (a + b) st = ticks T (t0 + Z.of_nat a * T)%Z b (ticks T t0 a st).
Proof.
  revert t0 st. induction a as [|a IH]; intros t0 st.
  - cbn [plus ticks]. now replace (t0 + Z.of_nat 0 * T)%Z with t0 by lia.
  - cbn [plus ticks]. rewrite IH. f_equal. rewrite Nat2Z.inj_succ, Z.mul_succ_l. lia.
Qed.

Lemma ticks_last T t0 k st :
  ticks T t0 (S k) st
  = exec (updateRobotStates (t0 + Z.of_nat (S k) * T)%Z) (ticks T t0 k st).
Proof.
  replace (S k) with (k + 1) at 1 by lia. rewrite ticks_add. cbn [ticks].
  f_equal. f_equal. rewrite Nat2Z.inj_succ, Z.mul_succ_l. lia.
Qed.

Lemma ticks_WF T t0 n st : WF st -> WF (ticks T t0 n st).
Proof.
  revert t0 st. induction n as [|n IH]; intros t0 st Hwf; [exact Hwf|].
  cbn [ticks]. apply IH. now apply updateRobotStates_WF.
Qed.

(** A tick keeps the holder of a mission that is not yet [completed]. *)
Lemma tick_keeps_holder now st rid r mid m :
  WF st ->
  store_get rid (robots st) = Some r ->
  currentMissionId r = Some mid ->
  store_get mid (missions st) = Some m ->
  currentStage m <> Stage.completed ->
  exists r1,
    store_get rid (robots (exec (updateRobotStates now) st)) = Some r1
    /\ currentMissionId r1 = Some mid
    /\ robot_id r1 = robot_id r.
Proof.
  intros Hwf Hget Hc Hm Hnc.
  destruct (tick_holder_outcome now st rid r mid m Hwf Hget Hc Hm)
    as [_ [seen [Hseen ->]]].
  eexists. split; [reflexivity|].
  destruct (robotUpdateFor now seen) as [u|] eqn:Eu; [|auto].
  pose proof Eu as Eshape. apply robotUpdateFor_shape in Eshape.
  destruct Eshape as [->|[s [_ ->]]]; [|cbn; auto].
  exfalso. destruct Hseen as [->| ->].
  - apply idle_update_only_after_completed in Eu. now destruct Eu.
  - destruct (update_after_advance now m) as [Hn|[_ Hu]]; [congruence|].
    apply idle_update_only_after_completed in Hu. now destruct Hu.
Qed.

Lemma stage_chain (s s' : Stage.t) (info : StageInfo) :
  nextStageOf s = Some s' ->
  missionStages s = Some info ->
  length (stagesFrom s) = S (length (stagesFrom s'))
  /\ remainingSeconds s = (duration info + remainingSeconds s')%Z
  /\ s' <> Stage.cancelled
  /\ exists info', missionStages s' = Some info' /\ (0 < duration info')%Z.
Proof.
  unfold nextStageOf. rewrite array_next.
  destruct s; intros [= <-]; cbn [missionStages]; intros [= <-]; cbn [duration];
    (split; [reflexivity|]); (split; [reflexivity|]); (split; [discriminate|]);
    eexists; (split; [reflexivity|]); cbn; lia.
Qed.

Lemma stage_last (s : Stage.t) (info : StageInfo) :
  nextStageOf s = None ->
  missionStages s = Some info ->
  s = Stage.completed
  /\ length (stagesFrom s) = 1
  /\ remainingSeconds s = duration info.
Proof.
  unfold nextStageOf. rewrite array_next.
  destruct s; try discriminate. intros _ [= <-]. repeat split.
Qed.

Lemma lifecycle_rank (n : nat) : forall (T t0 : Z) (st : State) (rid : string)
  (r : Robot) (mid : string) (m : Mission) (info : StageInfo),
  length (stagesFrom (currentStage m)) = n ->
  WF st ->
  store_get rid (robots st) = Some r ->
  currentMissionId r = Some mid ->
  store_get mid (missions st) = Some m ->
  missionStages (currentStage m) = Some info ->
  (0 < T)%Z ->
  (t0 - stageStartTime m < 1000 * duration info)%Z ->
  exists k : nat,
    (exists m',
       store_get mid (missions (ticks T t0 k st)) = Some m'
       /\ currentStage m' = Stage.completed)
    /\ store_get rid (robots (ticks T t0 k st))
       = Some (mkRobot (robot_id r) RobotStatus.idle None (t0 + Z.of_nat k * T)%Z)
    /\ (1000 * remainingSeconds (currentStage m)
        <= t0 + Z.of_nat k * T - stageStartTime m
        < 1000 * remainingSeconds (currentStage m) + Z.of_nat n * T)%Z.
Proof.
  induction n as [|n IH]; intros T t0 st rid r mid m info Hrank Hwf Hget Hc Hm Hinfo
    HT Hearly.
  - destruct (currentStage m); cbn in Hrank, Hinfo; discriminate.
  - destruct (overshoot_fuel
                (Z.to_nat (stageStartTime m + 1000 * duration info - t0))
                T t0 st rid r mid m info Hwf Hget Hc Hm Hinfo HT Hearly)
      as [k [Hbefore [Hleave Hbound]]]; [rewrite Z2Nat.id by lia; nia|].
    destruct (nextStageOf (currentStage m)) as [s'|] eqn:En.
    + destruct (stage_chain _ _ _ En Hinfo) as [Hlen [Hrem [Hnc' [info' [Hinfo' Hpos]]]]].
      destruct (Hbefore k (le_n k)) as [Hmk Hrk].
      assert (Hnotc : currentStage m <> Stage.completed).
      { intros E. rewrite E in En. discriminate. }
      destruct (tick_keeps_holder (t0 + Z.of_nat (S k) * T)%Z (ticks T t0 k st)
                  rid r mid m (ticks_WF T t0 k st Hwf) Hrk Hc Hmk Hnotc)
        as [r1 [Hr1 [Hc1 Hid1]]].
      rewrite <- ticks_last in Hr1.
      destruct (IH T (t0 + Z.of_nat (S k) * T)%Z (ticks T t0 (S k) st) rid r1 mid
                  (enterStage m s' (t0 + Z.of_nat (S k) * T)%Z) info')
        as [k2 [Hdone [Hrobot Htime]]]; auto.
      * cbn [enterStage currentStage]. lia.
      * now apply ticks_WF.
      * cbn [enterStage stageStartTime]. lia.
      * exists (S k + k2). rewrite ticks_add.
        assert (Hclock : (t0 + Z.of_nat (S k) * T + Z.of_nat k2 * T
                          = t0 + Z.of_nat (S k + k2) * T)%Z)
          by (rewrite (Nat2Z.inj_add (S k) k2); lia).
        rewrite <- Hclock, <- Hid1. split; [exact Hdone|]. split; [exact Hrobot|].
        cbn [enterStage currentStage stageStartTime] in Htime.
        rewrite Hrem. rewrite (Nat2Z.inj_succ n), Z.mul_succ_l. lia.
    + destruct (stage_last _ _ En Hinfo) as [Hcompl [Hlen Hrem]].
      destruct Hleave as [Hmend Hrend].
      exists (S k). split; [exists m; auto|]. split; [exact Hrend|].
      rewrite Hrem. rewrite (Nat2Z.inj_succ n), Z.mul_succ_l.
      assert (0 <= Z.of_nat n * T)%Z by nia. lia.
Qed.

(** X14.  Under advancement ticks at [t0 + T], [t0 + 2T], ..., a robot of a
    well-formed state that holds a mission not yet due at [t0] is released:
    after some number of ticks the mission is [completed] and the robot is
    idle with a null mission id.  The time from the mission's
    [stageStartTime] to that tick is at least the durations of its current
    and later stages and exceeds them by less than one tick interval per
    stage (from [preparation]: between 245 s and 245 s + 4T). *)
Theorem mission_runs_to_completion (T t0 : Z) (st : State) (rid : string) (r : Robot)
  (mid : string) (m : Mission) (info : StageInfo) :
  wf st = true ->
  store_get rid (robots st) = Some r ->
  currentMissionId r = Some mid ->
  store_get mid (missions st) = Some m ->
  missionStages (currentStage m) = Some info ->
  (0 < T)%Z ->
  (t0 - stageStartTime m < 1000 * duration info)%Z ->
  exists k : nat,
    let released := (t0 + Z.of_nat k * T)%Z in
    (exists m',
       store_get mid (missions (ticks T t0 k st)) = Some m'
       /\ currentStage m' = Stage.completed)
    /\ store_get rid (robots (ticks T t0 k st))
       = Some (mkRobot (robot_id r) RobotStatus.idle None released)
    /\ (1000 * remainingSeconds (currentStage m)
        <= released - stageStartTime m
        < 1000 * remainingSeconds (currentStage m)
          + Z.of_nat (length (stagesFrom (currentStage m))) * T)%Z.
Proof.
  intros Hwf Hget Hc Hm Hinfo HT Hearly. apply wf_spec in Hwf.
  apply (lifecycle_rank (length (stagesFrom (currentStage m))) T t0 st rid r mid m info);
    auto.
Qed.

(** ** The robot status mirrors the mission stage *)

Lemma mirror_after_tick now m r info :
  missionStages (currentStage m) = Some info ->
  status r = robotStatus info ->
  match robotUpdateFor now m with
  | Some u =>
      currentMissionId (mergeRobot r u now) = None
      \/ exists info',
           missionStages (currentStage (advanceMission now m)) = Some info'
           /\ status (mergeRobot r u now) = robotStatus info'
  | None =>
      exists info',
        missionStages (currentStage (advanceMission now m)) = Some info'
        /\ status r = robotStatus info'
  end.
Proof.
  unfold robotUpdateFor, advanceMission, due, nextStageOf, enterStage.
  rewrite array_next. destruct m as [mi ar ca cs ss]. cbn [currentStage stageStartTime].
  destruct cs; cbn [Stage.eqb missionStages duration robotStatus]; try discriminate;
    intros [= <-]; cbn [robotStatus]; intros Hs; case_elapsed;
    cbn [missionStages robotStatus currentStage];
    try (eexists; split; [reflexivity|exact Hs]);
    try (right; eexists; split; reflexivity).
  left. reflexivity.
Qed.

Lemma tick_mirrors now st :
  WF st -> Unshared (robots st) -> Mirrors st ->
  Mirrors (exec (updateRobotStates now) st).
Proof.
  intros Hwf HU HM k r1 mid m1 Hg1 Hc1 Hm1.
  destruct (updateRobotStates_narrows now st k r1 Hg1) as [E|[r0 [Hg0 Hc0]]];
    [congruence|].
  rewrite Hc1 in Hc0.
  pose proof (WF_get_bound _ _ _ Hwf Hg0) as HB. unfold Bound in HB.
  rewrite Hc0 in HB. destruct HB as [_ [_ Hex]].
  destruct (store_get mid (missions st)) as [m0|] eqn:Em0; [|congruence].
  pose proof (unshared_sole_holder st k r0 mid Hwf HU Hg0 Hc0) as Hsole.
  destruct (tick_sole_holder now st r0 mid m0 Hwf Hsole Em0) as [Hma Hra].
  rewrite (Keyed_get_id robot_id _ _ _ (proj1 Hwf) Hg0) in Hra.
  rewrite Hm1 in Hma. injection Hma as ->. rewrite Hg1 in Hra. injection Hra as Hr1.
  destruct (HM k r0 mid m0 Hg0 Hc0 Em0) as [info [Hinfo Hs]].
  pose proof (mirror_after_tick now m0 r0 info Hinfo Hs) as H.
  destruct (robotUpdateFor now m0) as [u|]; subst r1.
  - destruct H as [H|H]; [congruence|exact H].
  - exact H.
Qed.

Lemma assignStep_mirrors now i robot st :
  WF st -> Mirrors st ->
  store_get (missionIdOf now i) (missions st) = None ->
  Mirrors (assignStep now i robot st).
Proof.
  intros Hwf HM Hfresh k r mid m. unfold assignStep. cbn [robots missions].
  rewrite applyUpdate_get. destruct (String.eqb k (robot_id robot)) eqn:E.
  - destruct (store_get (robot_id robot) (robots st)) as [r0|]; [|discriminate].
    cbn. intros [= <-] [= <-]. rewrite store_get_set_same. intros [= <-].
    eexists. split; reflexivity.
  - intros Hg Hc.
    pose proof (WF_get_bound _ _ _ Hwf Hg) as HB. unfold Bound in HB.
    rewrite Hc in HB. destruct HB as [_ [_ Hex]].
    rewrite store_get_set_other by congruence.
    now apply (HM k r mid m).
Qed.

Lemma cancel_mirrors now robotId st :
  WF st -> Unshared (robots st) -> Mirrors st ->
  Mirrors (exec (cancelRobotMission now robotId) st).
Proof.
  intros Hwf HU HM.
  destruct (cancel_exec_cases now robotId st) as [->|[robot [mid0 [Hg0 [Hc0 [_ ->]]]]]];
    [exact HM|].
  intros k r mid m. cbn [robots missions].
  destruct (string_dec k robotId) as [->|Hk].
  - rewrite store_get_set_same. intros [= <-]. discriminate.
  - rewrite store_get_set_other by exact Hk. intros Hg Hc.
    assert (Hmid : mid <> mid0).
    { intros ->. apply Hk. exact (HU k robotId r robot mid0 Hg Hg0 Hc Hc0). }
    destruct (store_get mid0 (missions st));
      rewrite ?store_get_set_other by exact Hmid; now apply (HM k r mid m).
Qed.

Lemma freshRun_mirrors evs st :
  WF st -> Unshared (robots st) -> Mirrors st -> freshRun evs st = true ->
  Mirrors (exec (runEvents evs) st).
Proof.
  unfold runEvents. revert st.
  induction evs as [|e evs IH]; intros st Hwf HU HM Hf; [exact HM|].
  cbn [freshRun] in Hf. apply andb_true_iff in Hf. destruct Hf as [Hnow Hrest].
  rewrite exec_forEach_cons.
  assert (Hwf1 : WF (exec (handle e) st)).
  { pose proof (runEvents_WF [e] st Hwf) as H. unfold runEvents in H.
    now rewrite exec_forEach_cons in H. }
  assert (HU1 : Unshared (robots (exec (handle e) st))).
  { pose proof (freshRun_unshared [e] st Hwf HU) as H. unfold runEvents in H.
    rewrite exec_forEach_cons in H. apply H. cbn [freshRun]. now rewrite Hnow. }
  apply IH; auto.
  destruct e as [now|now|now robotId]; cbn [handle].
  - apply freshIds_spec in Hnow. destruct Hnow as [F0 F1].
    rewrite createNewMissions_exec.
    destruct (eval getIdleRobots st) as [|a [|b l]]; [exact HM| |].
    + now apply assignStep_mirrors.
    + apply assignStep_mirrors.
      * now apply assignStep_WF.
      * now apply assignStep_mirrors.
      * unfold assignStep. cbn [missions]. rewrite store_get_set_other; [exact F1|].
        intros E. now apply (missionIdOf_0_1 now).
  - now apply tick_mirrors.
  - rewrite exec_bind. cbn [exec ret snd]. now apply cancel_mirrors.
Qed.

(** X15.  On a run from start-up whose creation ticks draw unused ids, the
    status of every robot that holds a mission is the stage table's status
    for that mission's current stage ([assigned] in [preparation],
    [en_route] in [travel], [delivering] in [delivery], [completed] in
    [completed]); in particular a held mission is never [cancelled]. *)
Theorem status_mirrors_stage (t0 : Z) (evs : list Event) (k : string) (r : Robot)
  (mid : string) (m : Mission) :
  freshRun evs (initialFleet t0) = true ->
  store_get k (robots (exec (runEvents evs) (initialFleet t0))) = Some r ->
  currentMissionId r = Some mid ->
  store_get mid (missions (exec (runEvents evs) (initialFleet t0))) = Some m ->
  match currentStage m with
  | Stage.preparation => status r = RobotStatus.assigned
  | Stage.travel => status r = RobotStatus.en_route
  | Stage.delivery => status r = RobotStatus.delivering
  | Stage.completed => status r = RobotStatus.completed
  | Stage.cancelled => False
  end.
Proof.
  intros Hf Hg Hc Hm.
  assert (HM : Mirrors (exec (runEvents evs) (initialFleet t0))).
  { destruct (initialFleet_idle t0) as [_ [_ Hall]].
    apply freshRun_mirrors; [apply initialFleet_WF| | |exact Hf].
    - intros k1 k2 r1 r2 mid' H1 _ Hc1 _.
      apply store_get_value in H1. destruct (Hall r1 H1). congruence.
    - intros k1 r1 mid' m' H1 Hc1 _.
      apply store_get_value in H1. destruct (Hall r1 H1). congruence. }
  destruct (HM k r mid m Hg Hc Hm) as [info [Hinfo Hs]].
  destruct (currentStage m); cbn in Hinfo; try discriminate;
    injection Hinfo as <-; exact Hs.
Qed.

(** * Properties of the dashboard *)

(** X16.  The table offers Cancel exactly where the server would accept
    it: for every robot of a well-formed state, the row built from its JSON
    shows the button if and only if [cancelRobotMission] for the row's id
    returns [true] in that state. *)
Theorem cancel_button_matches_server (iso : Z -> string) (now : Z) (st : State)
  (r : Robot) :
  wf st = true ->
  In r (eval getAllRobots st) ->
  Dashboard.offersCancel (Dashboard.toJSON iso r)
  = eval (cancelRobotMission now (Dashboard.v_id (Dashboard.toJSON iso r))) st.
Proof.
  intros Hwf Hin. apply wf_spec in Hwf.
  assert (Hget : store_get (robot_id r) (robots st) = Some r)
    by (apply (Keyed_value_get robot_id); [apply Hwf|exact Hin]).
  unfold Dashboard.offersCancel, Dashboard.toJSON. cbn [Dashboard.v_id
    Dashboard.v_currentMissionId]. unfold eval.
  destruct (truthy (currentMissionId r)) eqn:Ht.
  - apply truthy_some in Ht. destruct Ht as [mid [Hc Hne]].
    now rewrite (cancelRobotMission_held now _ r mid st Hget Hc Hne).
  - now rewrite (cancelRobotMission_falsy now _ r st Hget Ht).
Qed.

(** X17.  [getStatusColor] gives the five robot statuses five different
    classes, and every other string the class of [idle]. *)
Theorem getStatusColor_classes :
  (forall a b : RobotStatus.t,
     Dashboard.getStatusColor (Dashboard.statusName a)
     = Dashboard.getStatusColor (Dashboard.statusName b) -> a = b)
  /\ (forall s : string,
        (forall a, s <> Dashboard.statusName a) ->
        Dashboard.getStatusColor s = "status-idle"%string).
Proof.
  split.
  - intros a b. destruct a, b; cbn; intros H; try reflexivity; discriminate.
  - intros s Hs. unfold Dashboard.getStatusColor.
    destruct (String.eqb s "idle") eqn:E0; [reflexivity|].
    destruct (String.eqb s "assigned") eqn:E1;
      [apply String.eqb_eq in E1; now destruct (Hs RobotStatus.assigned)|].
    destruct (String.eqb s "en_route") eqn:E2;
      [apply String.eqb_eq in E2; now destruct (Hs RobotStatus.en_route)|].
    destruct (String.eqb s "delivering") eqn:E3;
      [apply String.eqb_eq in E3; now destruct (Hs RobotStatus.delivering)|].
    destruct (String.eqb s "completed") eqn:E4;
      [apply String.eqb_eq in E4; now destruct (Hs RobotStatus.completed)|].
    reflexivity.
Qed.

(** X18.  After a polling round the error banner tells how the robots
    fetch of that round went and nothing else: it is empty when the fetch
    succeeded, whatever error was shown before and whatever the statistics
    fetch did, and otherwise it is the robots-fetch message while the table,
    and the time of last update, stay as they were.  A failed statistics
    fetch leaves the statistics shown. *)
Theorem poll_error_banner (robotsResp : Dashboard.Response (list Dashboard.RobotView))
  (statsResp : Dashboard.Response Stats) (now : Z) (d : Dashboard.View) :
  let d' := Dashboard.poll robotsResp statsResp now d in
  match robotsResp with
  | Dashboard.Ok rows =>
      Dashboard.d_error d' = None
      /\ Dashboard.d_robots d' = rows
      /\ Dashboard.d_lastUpdate d' = now
  | Dashboard.Failed =>
      Dashboard.d_error d' = Some "Failed to fetch robot data"%string
      /\ Dashboard.d_robots d' = Dashboard.d_robots d
      /\ Dashboard.d_lastUpdate d' = Dashboard.d_lastUpdate d
  end
  /\ Dashboard.d_stats d'
     = match statsResp with
       | Dashboard.Ok s => Some s
       | Dashboard.Failed => Dashboard.d_stats d
       end
  /\ Dashboard.d_loading d' = Dashboard.d_loading d.
Proof.
  cbn zeta. unfold Dashboard.poll.
  destruct robotsResp, statsResp; cbn; repeat split.
Qed.

Lemma cancelled_robot_has_no_mission now robotId st r :
  WF st ->
  store_get robotId (robots (exec (cancelRobotMission now robotId) st)) = Some r ->
  currentMissionId r = None.
Proof.
  intros Hwf.
  destruct (cancel_exec_cases now robotId st) as [Hsame|[robot [mid [Hg [Hc [Hne Hex]]]]]].
  - rewrite Hsame. intros Hget.
    pose proof (WF_get_bound _ _ _ Hwf Hget) as HB. unfold Bound in HB.
    destruct (currentMissionId r) as [mid|] eqn:Hc; [|reflexivity].
    exfalso. destruct HB as [Hs [Hne _]].
    unfold exec in Hsame.
    rewrite (cancelRobotMission_held now robotId r mid st Hget Hc Hne) in Hsame.
    cbn [snd] in Hsame. apply (f_equal robots) in Hsame. cbn [robots] in Hsame.
    pose proof (store_get_set_same robotId (mergeRobot r idleUpdate now) (robots st))
      as Hnew.
    rewrite Hsame, Hget in Hnew. injection Hnew as Hnew.
    apply Hs. rewrite Hnew. reflexivity.
  - rewrite Hex. cbn [robots]. rewrite store_get_set_same. now intros [= <-].
Qed.

Lemma handle_narrows e st :
  isCreate e = false ->
  Narrows (robots st) (robots (exec (handle e) st)).
Proof.
  destruct e as [now|now|now robotId]; cbn [handle isCreate]; [discriminate| |];
    intros _.
  - apply updateRobotStates_narrows.
  - rewrite exec_bind. cbn [exec ret snd]. apply cancelRobotMission_narrows.
Qed.

Lemma quiet_run_narrows evs st :
  forallb (fun e => negb (isCreate e)) evs = true ->
  Narrows (robots st) (robots (exec (runEvents evs) st)).
Proof.
  unfold runEvents. revert st.
  induction evs as [|e evs IH]; intros st; [intros _; apply Narrows_refl|].
  cbn [forallb]. intros H. apply andb_true_iff in H. destruct H as [He Hevs].
  rewrite exec_forEach_cons.
  eapply Narrows_trans; [apply handle_narrows|apply IH; exact Hevs].
  now destruct (isCreate e).
Qed.


(** The creation timer may fire between the cancellation and
    [GET /api/robots]: the robot just released is idle, is handed a new
    mission, and its row offers Cancel again. *)
Lemma click_cancel_then_creation :
  let d' := snd (clickCancel noDate "robot-1" 5000 5002 [Create 5001] [] startState
                   (Dashboard.mkDash [] None false None 0)) in
  eval (cancelRobotMission 5000 "robot-1") startState = true
  /\ exists v, In v (Dashboard.d_robots d')
       /\ Dashboard.v_id v = "robot-1"%string
       /\ Dashboard.offersCancel v = true.
Proof.
  cbn zeta. split; [vm_compute; reflexivity|].
  exists (Dashboard.mkView "robot-1" "assigned" (Some "mission-5001-0"%string)
            EmptyString).
  split; [|split; reflexivity].
  vm_compute. left. reflexivity.
Qed.

(** * Availability and start-up *)

(** X20.  In a well-formed state the robots [getIdleRobots] returns are
    exactly the robots without a mission, in registry order; they are the
    robots the next creation tick may bind and the ones a cancel refuses. *)
Theorem idle_robots_are_free (st : State) :
  wf st = true ->
  eval getIdleRobots st
  = filter (fun r => negb (isSome (currentMissionId r))) (eval getAllRobots st)
  /\ forall r now, In r (eval getIdleRobots st) ->
       eval (cancelRobotMission now (robot_id r)) st = false.
Proof.
  intros Hwf. apply wf_spec in Hwf.
  assert (Hiff : forall r, In r (store_values (robots st)) ->
            RobotStatus.eqb (status r) RobotStatus.idle
            = negb (isSome (currentMissionId r))).
  { intros r Hr. destruct Hwf as [_ [_ HB]]. specialize (HB r Hr). unfold Bound in HB.
    destruct (currentMissionId r); cbn.
    - destruct HB as [Hs _]. now destruct (status r).
    - now rewrite HB. }
  split.
  - rewrite getIdleRobots_eval. apply filter_ext_in. exact Hiff.
  - intros r now Hr. rewrite getIdleRobots_eval in Hr. apply filter_In in Hr.
    destruct Hr as [Hr Hs]. rewrite (Hiff r Hr) in Hs.
    assert (Hget : store_get (robot_id r) (robots st) = Some r)
      by (apply (Keyed_value_get robot_id); [apply Hwf|exact Hr]).
    unfold eval. rewrite (cancelRobotMission_falsy now _ r st Hget); [reflexivity|].
    destruct (currentMissionId r); [discriminate|reflexivity].
Qed.

(** X21.  Start-up ([initializeRobots(); createNewMissions()]) at any
    instant, on a mission store that does not yet use the two ids drawn:
    [robot-1] and [robot-2] are assigned the new missions
    [mission-<now>-0] and [mission-<now>-1], appended to the mission store in
    [preparation]; the other ninety-eight robots are idle. *)
Theorem startSimulation_first_batch (now : Z) (st : State) :
  freshIds now st = true ->
  let st' := exec (startSimulation now) st in
  robots st'
  = (robotIdOf 1,
     mkRobot (robotIdOf 1) RobotStatus.assigned (Some (missionIdOf now 0)) now)
    :: (robotIdOf 2,
        mkRobot (robotIdOf 2) RobotStatus.assigned (Some (missionIdOf now 1)) now)
    :: map (fun i => (robotIdOf i, mkRobot (robotIdOf i) RobotStatus.idle None now))
         (seq 3 98)
  /\ missions st'
     = missions st
       ++ [(missionIdOf now 0,
            mkMission (missionIdOf now 0) (Some (robotIdOf 1)) now
              Stage.preparation now);
           (missionIdOf now 1,
            mkMission (missionIdOf now 1) (Some (robotIdOf 2)) now
              Stage.preparation now)].
Proof.
  intros Hfresh. apply freshIds_spec in Hfresh. destruct Hfresh as [F0 F1]. cbn zeta.
  unfold startSimulation. rewrite exec_bind.
  set (st0 := exec (initializeRobots now) st).
  assert (HR : robots st0
               = map (fun i => (robotIdOf i,
                                mkRobot (robotIdOf i) RobotStatus.idle None now))
                   (seq 1 100)
               /\ missions st0 = missions st).
  { unfold st0, initializeRobots. rewrite exec_bind.
    destruct (initialise_loop now (seq 1 fleetSize) (exec (putRobots []) st))
      as [HR HM].
    - cbn [exec putRobots snd robots store_keys map app]. apply robotIds_distinct.
    - split; [rewrite HR|rewrite HM]; reflexivity. }
  destruct HR as [HR HM].
  rewrite createNewMissions_exec, getIdleRobots_eval, HR.
  cbn [seq map store_values snd filter status RobotStatus.eqb].
  unfold assignStep. cbn [robots missions robot_id newMission].
  rewrite HR, HM. split.
  - vm_compute. reflexivity.
  - rewrite (store_set_new_last (missionIdOf now 1)).
    + rewrite (store_set_new_last (missionIdOf now 0)) by now apply store_get_none.
      now rewrite <- app_assoc.
    + rewrite (store_set_new_last (missionIdOf now 0)) by now apply store_get_none.
      unfold store_keys. rewrite map_app. cbn [map fst]. intros Hin.
      apply in_app_or in Hin. destruct Hin as [Hin|[E|[]]].
      * apply store_get_none in F1. exact (F1 Hin).
      * now apply (missionIdOf_0_1 now).
Qed.

(** ** The further properties at sample states *)

Lemma missions_never_deleted_witness :
  forallb (fun e => negb (isCreate e)) quietRun = true
  /\ store_keys (missions (exec (runEvents quietRun) startState))
     = store_keys (missions startState).
Proof.
  split; [reflexivity|].
  destruct (missions_never_deleted quietRun startState) as [added [Hkeys Hnone]].
  rewrite Hkeys, (Hnone eq_refl). apply app_nil_r.
Defined.

Lemma mission_identity_kept_witness :
  freshRun [Tick 31000; Create 61000] startState = true
  /\ store_get "mission-1000-0" (missions startState) = Some sampleMission
  /\ exists m',
       store_get "mission-1000-0"
         (missions (exec (runEvents [Tick 31000; Create 61000]) startState)) = Some m'
       /\ mission_id m' = mission_id sampleMission
       /\ assignedRobotId m' = assignedRobotId sampleMission
       /\ createdAt m' = createdAt sampleMission.
Proof.
  split; [vm_compute; reflexivity|]. split; [vm_compute; reflexivity|].
  apply (mission_identity_kept [Tick 31000; Create 61000] startState
           "mission-1000-0" sampleMission); vm_compute; reflexivity.
Defined.


Lemma tick_never_binds_witness :
  wf startState = true
  /\ store_get "robot-3" (robots startState)
     = Some (mkRobot "robot-3" RobotStatus.idle None 1000)
  /\ store_get "robot-3" (robots (exec (updateRobotStates 31000) startState))
     = Some (mkRobot "robot-3" RobotStatus.idle None 1000).
Proof.
  split; [vm_compute; reflexivity|]. split; [vm_compute; reflexivity|].
  apply (proj2 (tick_never_binds 31000 startState "robot-3"
                  (mkRobot "robot-3" RobotStatus.idle None 1000)
                  ltac:(vm_compute; reflexivity) ltac:(vm_compute; reflexivity))).
  reflexivity.
Defined.

Lemma cancel_touches_one_robot_witness :
  "robot-2"%string <> "robot-1"%string
  /\ store_get "robot-2" (robots (exec (cancelRobotMission 5000 "robot-1") startState))
     = store_get "robot-2" (robots startState).
Proof.
  split; [discriminate|].
  apply (proj1 (cancel_touches_one_robot 5000 "robot-1" startState)). discriminate.
Defined.

Lemma cancel_moves_counts_witness :
  wf startState = true
  /\ eval (cancelRobotMission 5000 "robot-1") startState = true
  /\ idleRobots (eval statsHandler (exec (cancelRobotMission 5000 "robot-1") startState))
     = idleRobots (eval statsHandler startState) + 1.
Proof.
  split; [vm_compute; reflexivity|]. split; [vm_compute; reflexivity|].
  apply (cancel_moves_counts 5000 "robot-1" startState); vm_compute; reflexivity.
Defined.

Lemma create_moves_counts_witness :
  wf startState = true
  /\ freshIds 61000 startState = true
  /\ totalRobots (eval statsHandler (exec (createNewMissions 61000) startState))
     = totalRobots (eval statsHandler startState).
Proof.
  split; [vm_compute; reflexivity|]. split; [vm_compute; reflexivity|].
  apply (create_moves_counts 61000 startState); vm_compute; reflexivity.
Defined.

Lemma tick_idempotent_witness :
  wf startState = true
  /\ exec (updateRobotStates 31000) (exec (updateRobotStates 31000) startState)
     = exec (updateRobotStates 31000) startState.
Proof.
  split; [vm_compute; reflexivity|].
  apply (tick_idempotent 31000 startState). vm_compute; reflexivity.
Defined.

Lemma robot_not_released_early_witness :
  wf startState = true
  /\ store_get "robot-1" (robots startState) = Some sampleRobot1
  /\ store_get "mission-1000-0" (missions startState) = Some sampleMission
  /\ store_get "robot-1" (robots (exec (runTicks sampleTimes) startState))
     = Some sampleRobot1Released
  /\ exists t,
       In t sampleTimes
       /\ (stageStartTime sampleMission
           + 1000 * remainingSeconds (currentStage sampleMission) <= t)%Z.
Proof.
  split; [vm_compute; reflexivity|]. split; [vm_compute; reflexivity|].
  split; [vm_compute; reflexivity|]. split; [vm_compute; reflexivity|].
  apply (robot_not_released_early sampleTimes startState "robot-1" sampleRobot1
           "mission-1000-0" sampleMission sampleRobot1Released);
    try (vm_compute; reflexivity); discriminate.
Defined.

Lemma mission_runs_to_completion_witness :
  wf startState = true
  /\ store_get "robot-1" (robots startState) = Some sampleRobot1
  /\ store_get "mission-1000-0" (missions startState) = Some sampleMission
  /\ exists k : nat,
       let released := (1000 + Z.of_nat k * 10000)%Z in
       (exists m',
          store_get "mission-1000-0" (missions (ticks 10000 1000 k startState)) = Some m'
          /\ currentStage m' = Stage.completed)
       /\ store_get "robot-1" (robots (ticks 10000 1000 k startState))
          = Some (mkRobot "robot-1" RobotStatus.idle None released)
       /\ (1000 * 245 <= released - 1000 < 1000 * 245 + 4 * 10000)%Z.
Proof.
  split; [vm_compute; reflexivity|]. split; [vm_compute; reflexivity|].
  split; [vm_compute; reflexivity|].
  apply (mission_runs_to_completion 10000 1000 startState "robot-1" sampleRobot1
           "mission-1000-0" sampleMission (mkStageInfo 30 RobotStatus.assigned));
    try (vm_compute; reflexivity); lia.
Defined.

Lemma status_mirrors_stage_witness :
  freshRun [Create 1000; Tick 31000] (initialFleet 1000) = true
  /\ store_get "robot-1"
       (robots (exec (runEvents [Create 1000; Tick 31000]) (initialFleet 1000)))
     = Some sampleRobot1Travelling
  /\ store_get "mission-1000-0"
       (missions (exec (runEvents [Create 1000; Tick 31000]) (initialFleet 1000)))
     = Some sampleMissionTravelling
  /\ status sampleRobot1Travelling = RobotStatus.en_route.
Proof.
  split; [vm_compute; reflexivity|]. split; [vm_compute; reflexivity|].
  split; [vm_compute; reflexivity|].
  apply (status_mirrors_stage 1000 [Create 1000; Tick 31000] "robot-1"
           sampleRobot1Travelling "mission-1000-0" sampleMissionTravelling);
    vm_compute; reflexivity.
Defined.

Lemma cancel_button_matches_server_witness :
  wf startState = true
  /\ In sampleRobot1 (eval getAllRobots startState)
  /\ Dashboard.offersCancel (Dashboard.toJSON noDate sampleRobot1)
     = eval (cancelRobotMission 5000 "robot-1") startState.
Proof.
  split; [vm_compute; reflexivity|].
  assert (Hin : In sampleRobot1 (eval getAllRobots startState)).
  { apply (store_get_value (robots startState) "robot-1"). vm_compute; reflexivity. }
  split; [exact Hin|].
  apply (cancel_button_matches_server noDate 5000 startState sampleRobot1);
    [vm_compute; reflexivity|exact Hin].
Defined.

Lemma getStatusColor_classes_witness :
  (forall a, "charging"%string <> Dashboard.statusName a)
  /\ Dashboard.getStatusColor "charging" = "status-idle"%string.
Proof.
  assert (H : forall a, "charging"%string <> Dashboard.statusName a)
    by (intros a; destruct a; discriminate).
  split; [exact H|].
  apply (proj2 getStatusColor_classes "charging"%string H).
Defined.

Lemma registry_keys_fixed_witness :
  wf startState = true
  /\ wf (exec (runEvents sampleRun) startState) = true
  /\ store_keys (robots (exec (runEvents sampleRun) startState))
     = store_keys (robots startState).
Proof.
  split; [vm_compute; reflexivity|].
  apply (registry_keys_fixed sampleRun startState).
  vm_compute; reflexivity.
Defined.


Lemma idle_robots_are_free_witness :
  wf startState = true
  /\ eval getIdleRobots startState
     = filter (fun r => negb (isSome (currentMissionId r))) (eval getAllRobots startState).
Proof.
  split; [vm_compute; reflexivity|].
  apply (idle_robots_are_free startState). vm_compute; reflexivity.
Defined.

Lemma startSimulation_first_batch_witness :
  freshIds 1000 emptyState = true
  /\ missions (exec (startSimulation 1000) emptyState)
     = missions emptyState
       ++ [(missionIdOf 1000 0,
            mkMission (missionIdOf 1000 0) (Some (robotIdOf 1)) 1000
              Stage.preparation 1000);
           (missionIdOf 1000 1,
            mkMission (missionIdOf 1000 1) (Some (robotIdOf 2)) 1000
              Stage.preparation 1000)].
Proof.
  split; [vm_compute; reflexivity|].
  apply (startSimulation_first_batch 1000 emptyState). vm_compute; reflexivity.
Defined.
